(** * Regulated strategic lending: the simulation engine, embedded and verified

    The Python sources embedded here are

    - [env/borrower.py]: the [Borrower] dataclass with [is_good],
      [best_response] and [adjustment_cost];
    - [env/environment.py]: [StrategicLendingEnv] with [reset_population],
      [evaluate_threshold] and [sweep_lambda];
    - [util/sweep_params.py]: [find_unregulated_optimum] and the body of
      [main] (the parameter-space explorer).

    Every number the program handles is a Python/numpy double.  The program
    text is embedded once, over an interface [Scalar] listing exactly the
    operations the sources apply to such numbers, and is then read at two
    instances: the rationals [Q] (exact arithmetic, the reading under which
    the specification states its algebraic properties) and the kernel's
    binary64 floats (the arithmetic the interpreter really runs, with its
    infinities and NaN). *)

From Stdlib Require Import List Bool Arith ZArith QArith Lia Lqa.
From Stdlib Require Import Permutation Sorted Qabs.
From Stdlib Require Import Floats.
From Stdlib Require Uint63.
Import ListNotations.

Set Implicit Arguments.
Set Warnings "-inexact-float,-abstract-large-number".
Open Scope nat_scope.

(** ** Exceptions

    Two places of the sources can raise: subscripting [None] (a
    [TypeError]) and the integer division [H / N] (a [ZeroDivisionError]). *)

Inductive exn : Set :=
| TypeError
| ZeroDivisionError.

Inductive result (A : Type) : Type :=
| Ok (a : A)
| Raise (e : exn).

Arguments Ok {A} a.
Arguments Raise {A} e.

Definition bind {A B : Type} (r : result A) (f : A -> result B) : result B :=
  match r with
  | Ok a => f a
  | Raise e => Raise e
  end.

Notation "x <- r ;; k" := (bind r (fun x => k))
  (at level 61, r at next level, right associativity).

(** [for x in xs: acc = body(acc, x)] where the body may raise: the first
    exception leaves the loop. *)
Fixpoint for_each {A S : Type} (body : S -> A -> result S) (xs : list A) (acc : S)
  : result S :=
  match xs with
  | [] => Ok acc
  | x :: xs' => acc' <- body acc x ;; for_each body xs' acc'
  end.

(** ** The arithmetic the sources use *)

Class Scalar (F : Type) : Type := {
  f0 : F;                       (* the literal [0.0] *)
  fadd : F -> F -> F;           (* [x + y] *)
  fsub : F -> F -> F;           (* [x - y] *)
  fmul : F -> F -> F;           (* [x * y] *)
  fdiv : F -> F -> F;           (* [x / y], only reached with [y] a positive count *)
  fneg : F -> F;                (* [-x] *)
  fle : F -> F -> bool;         (* [x <= y] *)
  flt : F -> F -> bool;         (* [x < y] *)
  of_count : nat -> F;          (* the coercion of a Python [int] counter in [lam * H], [acc / n] *)
  above_neg_inf : F -> bool     (* [x > -np.inf] *)
}.

Section ScalarOps.
Context {F : Type} `{Scalar F}.

(** Python evaluates [x >= y] and [x > y] on doubles as [y <= x] and [y < x]. *)
Definition fge (x y : F) : bool := fle y x.
Definition fgt (x y : F) : bool := flt y x.

(** [x ** 2], as the product [x * x].  In exact arithmetic this is the
    square.  In binary64 it is the correctly rounded square, which the
    interpreter's [pow(x, 2.0)] returns whenever the square is a double, and
    from which it can differ in the last place otherwise; where the product
    overflows to [inf], numpy's [float64] does the same, while a plain
    Python [float] raises [OverflowError]. *)
Definition fsquare (x : F) : F := fmul x x.
End ScalarOps.

(** Exact arithmetic. *)
#[export] Instance Q_Scalar : Scalar Q := {|
  f0 := 0%Q;
  fadd := Qplus;
  fsub := Qminus;
  fmul := Qmult;
  fdiv := Qdiv;
  fneg := Qopp;
  fle := Qle_bool;
  flt := fun x y => negb (Qle_bool y x);
  of_count := fun n => inject_Z (Z.of_nat n);
  above_neg_inf := fun _ => true
|}.

(** IEEE 754 binary64, as CPython's [float] and numpy's [float64].  A counter
    below 2^53 converts exactly. *)
#[export] Instance Binary64_Scalar : Scalar float := {|
  f0 := 0%float;
  fadd := PrimFloat.add;
  fsub := PrimFloat.sub;
  fmul := PrimFloat.mul;
  fdiv := PrimFloat.div;
  fneg := PrimFloat.opp;
  fle := PrimFloat.leb;
  flt := PrimFloat.ltb;
  of_count := fun n => PrimFloat.of_uint63 (Uint63.of_Z (Z.of_nat n));
  above_neg_inf := fun x => PrimFloat.ltb neg_infinity x
|}.

(** ** env/borrower.py *)

Module borrower.
Section WithScalar.
Context {F : Type} `{Scalar F}.

Record Borrower : Type := mkBorrower {
  z : F;
  k : F;
  theta : F;
  b : F;
  h : F;
  is_low_cost : bool
}.

Definition is_good (self : Borrower) : bool :=
  fge (z self) (theta self).

Definition best_response (self : Borrower) (t : F) : F :=
  if fge (z self) t then f0
  else
    let delta := fsub t (z self) in
    if fle delta f0 then f0
    else
      let U_adjust := fsub (b self) (fmul (k self) (fsquare delta)) in
      let U_no := if is_good self then fneg (h self) else f0 in
      if fge U_adjust U_no then delta else f0.

Definition adjustment_cost (self : Borrower) (a : F) : F :=
  fmul (k self) (fsquare a).
End WithScalar.
Arguments Borrower F : clear implicits.
End borrower.

(** ** numpy's random generator

    [np.random.default_rng(seed)] and the two draws the sources make from it.
    The generator is a library object with mutable state: a draw returns the
    sample together with the generator's next state. *)

Class Generator (F G : Type) : Type := {
  default_rng : Z -> G;
  normal : G -> F -> F -> nat -> list F * G;   (* [rng.normal(loc, scale, size=n)] *)
  uniform : G -> nat -> list F * G             (* [rng.uniform(size=n)] *)
}.

(** ** env/environment.py *)

Module environment.
Import borrower.

(** The [stats] dictionary returned by [evaluate_threshold]. *)
Module Stats.
Record t (F : Type) : Type := mk {
  Pi : F;
  H : nat;
  acc_L : F;
  acc_H : F;
  avg_cost_L : F;
  avg_cost_H : F
}.
End Stats.

(** The local variables of [evaluate_threshold] that its loop updates. *)
Module Locals.
Record t (F : Type) : Type := mk {
  Pi : F;
  H : nat;
  n_L : nat;
  n_H : nat;
  acc_L : nat;
  acc_H : nat;
  cost_L : F;
  cost_H : F
}.
End Locals.

(** One dictionary of the list [sweep_lambda] returns. *)
Module SweepRow.
Record t (F : Type) : Type := mk {
  lambda : F;
  t_star : F;
  Pi : F;
  H : nat;
  acc_L : F;
  acc_H : F;
  avg_cost_L : F;
  avg_cost_H : F
}.
End SweepRow.

(** The running best of a scan over [t_grid], once some threshold has been
  retained.  Before that the three variables are [best_obj = -np.inf],
  [best_t = None], [best_stats = None]; all three are assigned together,
  and a retained objective is never [-np.inf] again, so the scan's state is
  an [option Best.t] whose [None] is that initial state. *)
Module Best.
Record t (F : Type) : Type := mk {
  best_obj : F;
  best_t : F;
  best_stats : Stats.t F
}.
End Best.

Section WithScalar.
Context {F G : Type} `{Scalar F} `{Generator F G}.

Record StrategicLendingEnv : Type := mkEnv {
  N : nat;
  p_L : F;
  theta : F;
  b : F;
  h : F;
  k_L : F;
  k_H : F;
  pi_G : F;
  pi_B : F;
  z_mean : F;
  z_std : F;
  rng : G;
  borrowers : list (Borrower F)
}.

Definition reset_population (self : StrategicLendingEnv) (seed : option Z)
  : StrategicLendingEnv :=
  let rng0 := match seed with
              | Some s => default_rng s
              | None => rng self
              end in
  let '(z_vals, rng1) := normal rng0 (z_mean self) (z_std self) (N self) in
  let '(u_vals, rng2) := uniform rng1 (N self) in
  let is_low_cost := map (fun u => flt u (p_L self)) u_vals in
  let borrowers' :=
    map (fun '(z, low_cost) =>
           let k := if low_cost : bool then k_L self else k_H self in
           mkBorrower z k (theta self) (b self) (h self) low_cost)
        (combine z_vals is_low_cost) in
  mkEnv (N self) (p_L self) (theta self) (b self) (h self) (k_L self) (k_H self)
        (pi_G self) (pi_B self) (z_mean self) (z_std self) rng2 borrowers'.

(** [StrategicLendingEnv.__init__] *)
Definition init (N : nat) (p_L theta b h k_L k_H pi_G pi_B z_mean z_std : F) (seed : Z)
  : StrategicLendingEnv :=
  reset_population
    (mkEnv N p_L theta b h k_L k_H pi_G pi_B z_mean z_std (default_rng seed) [])
    None.

(** The body of the loop [for borrower in self.borrowers]. *)
Definition evaluate_step (self : StrategicLendingEnv) (t : F)
           (v : Locals.t F) (bw : Borrower F) : Locals.t F :=
  let a := best_response bw t in
  let s := fadd (z bw) a in
  let accepted := fge s t in
  let is_good := is_good bw in
  let Pi := if accepted
            then (if is_good then fadd (Locals.Pi v) (pi_G self)
                  else fadd (Locals.Pi v) (pi_B self))
            else Locals.Pi v in
  let H := if negb accepted && is_good then S (Locals.H v) else Locals.H v in
  if is_low_cost bw
  then Locals.mk Pi H
         (S (Locals.n_L v)) (Locals.n_H v)
         (if accepted then S (Locals.acc_L v) else Locals.acc_L v) (Locals.acc_H v)
         (fadd (Locals.cost_L v) (adjustment_cost bw a)) (Locals.cost_H v)
  else Locals.mk Pi H
         (Locals.n_L v) (S (Locals.n_H v))
         (Locals.acc_L v) (if accepted then S (Locals.acc_H v) else Locals.acc_H v)
         (Locals.cost_L v) (fadd (Locals.cost_H v) (adjustment_cost bw a)).

Definition evaluate_init : Locals.t F := Locals.mk f0 0 0 0 0 0 f0 f0.

Definition evaluate_loop (self : StrategicLendingEnv) (t : F) : Locals.t F :=
  fold_left (evaluate_step self t) (borrowers self) evaluate_init.

Definition evaluate_threshold (self : StrategicLendingEnv) (t lam : F)
  : F * Stats.t F :=
  let v := evaluate_loop self t in
  let acc_L_rate := if 0 <? Locals.n_L v
                    then fdiv (of_count (Locals.acc_L v)) (of_count (Locals.n_L v))
                    else f0 in
  let acc_H_rate := if 0 <? Locals.n_H v
                    then fdiv (of_count (Locals.acc_H v)) (of_count (Locals.n_H v))
                    else f0 in
  let avg_cost_L := if 0 <? Locals.n_L v
                    then fdiv (Locals.cost_L v) (of_count (Locals.n_L v))
                    else f0 in
  let avg_cost_H := if 0 <? Locals.n_H v
                    then fdiv (Locals.cost_H v) (of_count (Locals.n_H v))
                    else f0 in
  let objective := fsub (Locals.Pi v) (fmul lam (of_count (Locals.H v))) in
  (objective,
   Stats.mk (Locals.Pi v) (Locals.H v) acc_L_rate acc_H_rate avg_cost_L avg_cost_H).

(** The body of [for t in t_grid], shared by [sweep_lambda] and
    [find_unregulated_optimum]. *)
Definition scan_step (self : StrategicLendingEnv) (lam : F)
           (best : option (Best.t F)) (t : F) : option (Best.t F) :=
  let '(obj, stats) := evaluate_threshold self t lam in
  let better := match best with
                | None => above_neg_inf obj
                | Some bst => fgt obj (Best.best_obj bst)
                end in
  if better then Some (Best.mk obj t stats) else best.

Definition scan (self : StrategicLendingEnv) (lam : F) (t_grid : list F)
  : option (Best.t F) :=
  fold_left (scan_step self lam) t_grid None.

(** The body of [for lam in lambda_grid]: subscripting [best_stats] raises
    when no threshold was retained. *)
Definition sweep_step (self : StrategicLendingEnv) (t_grid : list F)
           (results : list (SweepRow.t F)) (lam : F)
  : result (list (SweepRow.t F)) :=
  match scan self lam t_grid with
  | None => Raise TypeError
  | Some bst =>
      let best_stats := Best.best_stats bst in
      Ok (results ++
          [SweepRow.mk lam (Best.best_t bst)
             (Stats.Pi best_stats) (Stats.H best_stats)
             (Stats.acc_L best_stats) (Stats.acc_H best_stats)
             (Stats.avg_cost_L best_stats) (Stats.avg_cost_H best_stats)])
  end.

Definition sweep_lambda (self : StrategicLendingEnv) (lambda_grid t_grid : list F)
  : result (list (SweepRow.t F)) :=
  for_each (sweep_step self t_grid) lambda_grid [].
End WithScalar.
Arguments StrategicLendingEnv F G : clear implicits.
End environment.


(** ** Library functions the explorer calls *)

Section Library.
Context {F : Type} `{Scalar F}.

(** A decimal literal of the sources, given as the rational it denotes:
    [n / d] with both converted exactly, which is the literal's value in exact
    arithmetic and the double nearest to it in binary64. *)
Definition literal (neg : bool) (n d : nat) : F :=
let x := fdiv (of_count n) (of_count d) in
if neg then fneg x else x.

(** [np.linspace(start, stop, num)]: [num] evenly spaced samples, the last
    one set to [stop]. *)
Definition linspace (start stop : F) (num : nat) : list F :=
match num with
| 0 => []
| 1 => [start]
| S div =>
    let step := fdiv (fsub stop start) (of_count div) in
    map (fun i => fadd (fmul (of_count i) step) start) (seq 0 div) ++ [stop]
end.

Section Sorted.
Variable A : Type.
Variable key : A -> F.

(** Python's [sorted] is stable and compares keys with [<] only.  [x], which
    stood before every element of [l], is placed before the first element
    whose key is not below its own. *)
Fixpoint insert_by (x : A) (l : list A) : list A :=
match l with
| [] => [x]
| y :: l' => if flt (key y) (key x) then y :: insert_by x l' else x :: l
end.

Fixpoint sort_by (l : list A) : list A :=
match l with
| [] => []
| x :: l' => insert_by x (sort_by l')
end.

(** [sorted(l, key=key, reverse=reverse)]: with [reverse=True] the list is
    reversed, sorted, and reversed back, which keeps equal keys in their
    original order. *)
Definition sorted (l : list A) (reverse : bool) : list A :=
if reverse then rev (sort_by (rev l)) else sort_by l.
End Sorted.
End Library.

(** ** util/sweep_params.py *)

Module sweep_params.
Import borrower environment.

(** The keyword arguments [params] passed on to [StrategicLendingEnv]. *)
Module Params.
Record t (F : Type) : Type := mk {
  N : nat;
  p_L : F;
  theta : F;
  b : F;
  h : F;
  k_L : F;
  k_H : F;
  pi_G : F;
  pi_B : F;
  z_mean : F;
  z_std : F;
  seed : Z
}.
End Params.

(** One dictionary appended to [results] by [main]. *)
Module Regime.
Record t (F : Type) : Type := mk {
  p_L : F;
  b : F;
  h : F;
  k_L : F;
  k_H : F;
  pi_G : F;
  pi_B : F;
  t_star : F;
  Pi : F;
  H : nat;
  H_frac : F;
  acc_L : F;
  acc_H : F;
  cost_L : F;
  cost_H : F
}.
End Regime.

Section WithScalar.
Context {F G : Type} `{Scalar F} `{Generator F G}.

Definition make_env (params : Params.t F) : StrategicLendingEnv F G :=
init (Params.N params) (Params.p_L params) (Params.theta params)
     (Params.b params) (Params.h params) (Params.k_L params) (Params.k_H params)
     (Params.pi_G params) (Params.pi_B params)
     (Params.z_mean params) (Params.z_std params) (Params.seed params).

Definition find_unregulated_optimum (params : Params.t F) (t_grid : list F)
  : option F * option (Stats.t F) :=
let env := make_env params in
let lam := f0 in
match scan env lam t_grid with
| None => (None, None)
| Some bst => (Some (Best.best_t bst), Some (Best.best_stats bst))
end.

(** The body of the innermost loop of [main]. *)
Definition regime_of (N : nat) (theta z_mean z_std : F) (t_grid : list F)
           (p_L b h k_L k_H pi_G pi_B : F) : result (Regime.t F) :=
let params := Params.mk N p_L theta b h k_L k_H pi_G pi_B z_mean z_std 0%Z in
let '(t_star, stats) := find_unregulated_optimum params t_grid in
match stats, t_star with
| Some stats, Some t_star =>
    if N =? 0 then Raise ZeroDivisionError
    else
      Ok (Regime.mk p_L b h k_L k_H pi_G pi_B t_star
            (Stats.Pi stats) (Stats.H stats)
            (fdiv (of_count (Stats.H stats)) (of_count N))
            (Stats.acc_L stats) (Stats.acc_H stats)
            (Stats.avg_cost_L stats) (Stats.avg_cost_H stats))
| _, _ => Raise TypeError
end.

(** The seven nested loops of [main], appending to [results]. *)
Definition enumerate (N : nat) (theta z_mean z_std : F) (t_grid : list F)
           (p_L_grid b_grid h_grid k_L_grid k_H_grid pi_G_grid pi_B_grid : list F)
  : result (list (Regime.t F)) :=
for_each (fun results p_L =>
for_each (fun results b =>
for_each (fun results h =>
for_each (fun results k_L =>
for_each (fun results k_H =>
for_each (fun results pi_G =>
for_each (fun results pi_B =>
  r <- regime_of N theta z_mean z_std t_grid p_L b h k_L k_H pi_G pi_B ;;
  Ok (results ++ [r]))
pi_B_grid results)
pi_G_grid results)
k_H_grid results)
k_L_grid results)
h_grid results)
b_grid results)
p_L_grid [].

(** [main] with its constants as arguments; the value is the list
    [results_sorted[:K]] whose rows [main] prints. *)
Definition explore (N : nat) (theta z_mean z_std : F) (t_grid : list F)
           (p_L_grid b_grid h_grid k_L_grid k_H_grid pi_G_grid pi_B_grid : list F)
           (K : nat) : result (list (Regime.t F)) :=
results <- enumerate N theta z_mean z_std t_grid
             p_L_grid b_grid h_grid k_L_grid k_H_grid pi_G_grid pi_B_grid ;;
let results_sorted := sorted (@Regime.H_frac F) results true in
Ok (firstn K results_sorted).

Definition main : result (list (Regime.t F)) :=
let N := 10000 in
let z_mean := f0 in
let z_std := literal false 1 1 in
let theta := f0 in
let t_grid := linspace (literal true 15 10) (literal false 4 1) 281 in
let p_L_grid := [literal false 3 10; literal false 5 10] in
let b_grid := [literal false 8 10; literal false 1 1] in
let h_grid := [literal false 1 10; literal false 3 10; literal false 5 10] in
let k_L_grid := [literal false 1 10] in
let k_H_grid := [literal false 3 10; literal false 7 10; literal false 1 1] in
let pi_G_grid := [literal false 2 10] in
let pi_B_grid := [literal true 2 10; literal true 4 10; literal true 6 10] in
let K := 15 in
explore N theta z_mean z_std t_grid
        p_L_grid b_grid h_grid k_L_grid k_H_grid pi_G_grid pi_B_grid K.
End WithScalar.
End sweep_params.


(** * Notions the properties are stated with *)

Import environment sweep_params borrower.

Section Notions.
Context {F G : Type} `{Scalar F} `{Generator F G}.

(** The reported score and the acceptance decision of one borrower, as
    [evaluate_threshold] computes them inside its loop. *)
Definition reported_score (bw : Borrower F) (t : F) : F :=
fadd (z bw) (best_response bw t).

Definition accepted (bw : Borrower F) (t : F) : bool :=
fge (reported_score bw t) t.

(** The objective [evaluate_threshold] returns at [(t, lam)]. *)
Definition objective (self : StrategicLendingEnv F G) (lam t : F) : F :=
fst (evaluate_threshold self t lam).

(** Two environments with the same constructor arguments (their generators
    and populations may differ). *)
Definition same_config (e1 e2 : StrategicLendingEnv F G) : Prop :=
environment.N e1 = environment.N e2 /\
environment.p_L e1 = environment.p_L e2 /\
environment.theta e1 = environment.theta e2 /\
environment.b e1 = environment.b e2 /\
environment.h e1 = environment.h e2 /\
environment.k_L e1 = environment.k_L e2 /\
environment.k_H e1 = environment.k_H e2 /\
environment.pi_G e1 = environment.pi_G e2 /\
environment.pi_B e1 = environment.pi_B e2 /\
environment.z_mean e1 = environment.z_mean e2 /\
environment.z_std e1 = environment.z_std e2.

(** Raw lender profit and harm at threshold [t]: the [Pi] and [H] of the
    statistics, which no penalty enters. *)
Definition profit (self : StrategicLendingEnv F G) (t : F) : F :=
Stats.Pi (snd (evaluate_threshold self t f0)).

Definition harm (self : StrategicLendingEnv F G) (t : F) : nat :=
Stats.H (snd (evaluate_threshold self t f0)).

End Notions.

(** The statistics a row of [sweep_lambda] copies from [best_stats]. *)
Definition row_stats {F : Type} (r : SweepRow.t F) : Stats.t F :=
Stats.mk (SweepRow.Pi r) (SweepRow.H r) (SweepRow.acc_L r) (SweepRow.acc_H r)
         (SweepRow.avg_cost_L r) (SweepRow.avg_cost_H r).

(** ** The evaluator as the specification words it (exact arithmetic) *)

Section SpecWords.
Local Open Scope Q_scope.
Context {G : Type} `{Generator Q G}.

(** Good: [z >= theta]. *)
Definition spec_good (bw : Borrower Q) : bool :=
Qle_bool (theta bw) (z bw).

(** Accepted: [z + best_response(t) >= t]. *)
Definition spec_accepted (bw : Borrower Q) (t : Q) : bool :=
Qle_bool t (z bw + best_response bw t).

(** Lender profit of one borrower: [pi_G] accepted and good, [pi_B] accepted
    and not good, [0] denied. *)
Definition spec_profit (self : StrategicLendingEnv Q G) (t : Q) (bw : Borrower Q) : Q :=
if spec_accepted bw t
then (if spec_good bw then pi_G self else pi_B self)
else 0.

Fixpoint Qsum (l : list Q) : Q :=
match l with
| [] => 0
| x :: l' => x + Qsum l'
end.

Definition spec_Pi (self : StrategicLendingEnv Q G) (t : Q) : Q :=
Qsum (map (spec_profit self t) (borrowers self)).

(** Harm: the number of borrowers that are good and not accepted. *)
Definition spec_H (self : StrategicLendingEnv Q G) (t : Q) : nat :=
length (filter (fun bw => spec_good bw && negb (spec_accepted bw t)) (borrowers self)).

(** No-adjustment utility: [-h] for a good borrower, [0] otherwise. *)
Definition spec_U_no (bw : Borrower Q) : Q :=
if spec_good bw then - h bw else 0.

(** [ts] maximises the objective over [t_grid] and is the earliest such
    threshold in grid order: every threshold before it scores strictly less,
    every one after it scores no more. *)
Definition first_maximiser (self : StrategicLendingEnv Q G) (lam : Q)
           (t_grid : list Q) (ts : Q) : Prop :=
exists pre post,
  t_grid = pre ++ ts :: post /\
  (forall t, In t pre -> objective self lam t < objective self lam ts) /\
  (forall t, In t post -> objective self lam t <= objective self lam ts).

(** What a scan has retained after reading the grid [l]: nothing when [l]
    is empty, and otherwise the first maximiser of the objective over [l]
    together with the objective and statistics evaluated there. *)
Definition retained (self : StrategicLendingEnv Q G) (lam : Q) (l : list Q)
           (best : option (Best.t Q)) : Prop :=
match best with
| None => l = []
| Some bst =>
    first_maximiser self lam l (Best.best_t bst) /\
    Best.best_obj bst = objective self lam (Best.best_t bst) /\
    Best.best_stats bst = snd (evaluate_threshold self (Best.best_t bst) lam)
end.

(** A row of [sweep_lambda] is right for [t_grid] when its [t_star] is the
    first maximiser for its penalty and it carries the statistics evaluated
    there. *)
Definition row_correct (self : StrategicLendingEnv Q G) (t_grid : list Q)
           (r : SweepRow.t Q) : Prop :=
first_maximiser self (SweepRow.lambda r) t_grid (SweepRow.t_star r) /\
row_stats r = snd (evaluate_threshold self (SweepRow.t_star r) (SweepRow.lambda r)).
End SpecWords.

(** ** What the scan selects in binary64 *)

Section SelectionWords.
Local Open Scope float_scope.
Context {G : Type} `{Generator float G}.

(** [ts] is a threshold the strict comparison can retain: it is on the grid,
    its objective is a number above [-inf] (not NaN, not [-inf]), and it is
    [+inf] as soon as some threshold of the grid scores [+inf]. *)
Definition selected64 (self : StrategicLendingEnv float G) (lam : float)
           (t_grid : list float) (ts : float) : Prop :=
In ts t_grid /\
is_nan (objective self lam ts) = false /\
objective self lam ts <> neg_infinity /\
((exists t, In t t_grid /\ objective self lam t = infinity) ->
 objective self lam ts = infinity).

(** No threshold of the grid has an objective above [-inf]: each one is
    [-inf] or NaN. *)
Definition nothing_above_neg_inf (self : StrategicLendingEnv float G) (lam : float)
           (t_grid : list float) : Prop :=
forall t, In t t_grid -> (neg_infinity <? objective self lam t) = false.
End SelectionWords.

(** ** A small generator to run the model on concrete inputs

    The theorems below hold for every [Generator]; this linear congruential
    one only serves to evaluate the model.  Its normal draws are
    [loc + scale * v] with [v] in [{-2, -3/2, .., 2}], its uniform draws lie
    in [{0, 1/10, .., 9/10}]. *)

Section ToyGenerator.
Context {F : Type} `{Scalar F}.

Definition lcg_next (x : Z) : Z := ((x * 1103515245 + 12345) mod 2147483648)%Z.

Fixpoint lcg_draws (f : Z -> F) (n : nat) (x : Z) : list F * Z :=
match n with
| 0 => ([], x)
| S n' =>
    let x' := lcg_next x in
    let '(l, x'') := lcg_draws f n' x' in
    (f x' :: l, x'')
end.

Definition lcg_normal (x : Z) (loc scale : F) (n : nat) : list F * Z :=
lcg_draws (fun y =>
             let v := fsub (literal false (Z.to_nat (y mod 9)) 2) (literal false 2 1) in
             fadd loc (fmul scale v)) n x.

Definition lcg_uniform (x : Z) (n : nat) : list F * Z :=
lcg_draws (fun y => literal false (Z.to_nat (y mod 10)) 10) n x.

#[export] Instance Toy_Generator : Generator F Z := {|
  default_rng := fun seed => seed;
  normal := lcg_normal;
  uniform := lcg_uniform
|}.
End ToyGenerator.

(** An environment over the toy generator with a given population. *)
Definition env_of {F : Type} `{Scalar F} (pi_G pi_B : F) (bs : list (Borrower F))
  : StrategicLendingEnv F Z :=
mkEnv (length bs) f0 f0 f0 f0 f0 f0 pi_G pi_B f0 f0 0%Z bs.

(** An environment built by the constructor, in exact arithmetic: five
    borrowers, [p_L = 1/2], [theta = 0], [b = 1], [h = 1/2], [k_L = 1/10],
    [k_H = 3/10], [pi_G = 1/5], [pi_B = -1/5], standard normal parameters,
    seed [0]. *)
Definition sample_env : StrategicLendingEnv Q Z :=
init 5 (1 # 2)%Q 0%Q 1%Q (1 # 2)%Q (1 # 10)%Q (3 # 10)%Q (1 # 5)%Q (- (1 # 5))%Q
     0%Q 1%Q 0%Z.

(** Two good borrowers, both accepted at a low threshold, and a profit per
    good loan of [1e308]: every input is finite, the summed profit is not. *)
Definition overflow_env : StrategicLendingEnv float Z :=
env_of 1e308%float (-0.2)%float
       [mkBorrower 1%float 0.1%float 0%float 1%float 0.5%float true;
        mkBorrower 2%float 0.3%float 0%float 1%float 0.5%float false].

(** The same profit figure as constructor arguments, for a population of
    three drawn by the toy generator. *)
Definition overflow_params : Params.t float :=
Params.mk 3 0.5%float 0%float 1%float 0.5%float 0.1%float 0.3%float
          1e308%float (-0.2)%float 0%float 1%float 0%Z.

(** A population where profit and harm pull apart, in exact arithmetic: a
    bad borrower who adjusts cheaply and a good one who cannot afford to.
    At [t = 0] both are accepted (a loss, no harm); at [t = 1] both are
    denied (no loss, one borrower harmed). *)
Definition tradeoff_env : StrategicLendingEnv Q Z :=
env_of (1 # 5)%Q (- (1 # 1))%Q
       [mkBorrower (- (1 # 1))%Q (3 # 10)%Q 0%Q 1%Q 0%Q false;
        mkBorrower 0%Q (10 # 1)%Q 0%Q 1%Q 0%Q false].

(** The parameter combinations [main] visits, in the order of its seven
    nested loops. *)
Definition combinations {F : Type}
           (p_L_grid b_grid h_grid k_L_grid k_H_grid pi_G_grid pi_B_grid : list F)
  : list (F * F * F * F * F * F * F) :=
flat_map (fun p_L =>
flat_map (fun b =>
flat_map (fun h =>
flat_map (fun k_L =>
flat_map (fun k_H =>
flat_map (fun pi_G =>
map (fun pi_B => (p_L, b, h, k_L, k_H, pi_G, pi_B)) pi_B_grid)
pi_G_grid) k_H_grid) k_L_grid) h_grid) b_grid) p_L_grid.

(** The parameter combination a regime records. *)
Definition regime_params {F : Type} (r : Regime.t F) : F * F * F * F * F * F * F :=
(Regime.p_L r, Regime.b r, Regime.h r, Regime.k_L r, Regime.k_H r,
 Regime.pi_G r, Regime.pi_B r).

(** What one pass of the innermost loop body of [main] appends to [results]
    for a combination, when it does not raise. *)
Definition appended {F G : Type} `{Scalar F} `{Generator F G}
           (N : nat) (theta z_mean z_std : F) (t_grid : list F)
           (c : F * F * F * F * F * F * F) : list (Regime.t F) :=
let '(p_L, b, h, k_L, k_H, pi_G, pi_B) := c in
match regime_of (G := G) N theta z_mean z_std t_grid p_L b h k_L k_H pi_G pi_B with
| Ok r => [r]
| Raise _ => []
end.

(** A good borrower at [z = -3.0] (with [theta = -5.0]) in binary64, whose
    gap to the threshold [-0.7] does not add back exactly:
    [-3.0 + (-0.7 - -3.0)] is [-0.7000000000000002]. *)
Definition rounding_borrower (k b h : float) (low_cost : bool) : Borrower float :=
mkBorrower (-3)%float k (-5)%float b h low_cost.

(** numpy returns exactly as many samples as [size] asks for. *)
Definition draws_as_asked (F G : Type) `{Generator F G} : Prop :=
(forall (g : G) (loc scale : F) (n : nat), length (fst (normal g loc scale n)) = n) /\
(forall (g : G) (n : nat), length (fst (uniform (F := F) g n)) = n).
Arguments draws_as_asked F G {_}.

(** The generator a call of [reset_population] draws from. *)
Definition first_rng {F G : Type} `{Generator F G}
           (self : StrategicLendingEnv F G) (seed : option Z) : G :=
match seed with
| Some s => default_rng (F := F) s
| None => rng self
end.


(** * Properties *)

(** ** Exact arithmetic: the comparisons as propositions *)

Section ExactComparisons.
Local Open Scope Q_scope.

Lemma fge_Q_true (x y : Q) : fge x y = true <-> y <= x.
Proof. unfold fge; cbn. apply Qle_bool_iff. Qed.

Lemma fge_Q_false (x y : Q) : fge x y = false <-> x < y.
Proof.
unfold fge; cbn. split; intros E.
- apply Qnot_le_lt. intros L. apply Qle_bool_iff in L. congruence.
- destruct (Qle_bool y x) eqn:B; [|reflexivity].
  apply Qle_bool_iff in B. exfalso. apply (Qlt_not_le _ _ E B).
Qed.

Lemma fle_Q_true (x y : Q) : fle x y = true <-> x <= y.
Proof. cbn. apply Qle_bool_iff. Qed.

Lemma fle_Q_false (x y : Q) : fle x y = false <-> y < x.
Proof. apply (fge_Q_false y x). Qed.

Lemma fgt_Q_true (x y : Q) : fgt x y = true <-> y < x.
Proof.
unfold fgt; cbn. rewrite negb_true_iff. apply (fge_Q_false y x).
Qed.

Lemma fgt_Q_false (x y : Q) : fgt x y = false <-> x <= y.
Proof.
unfold fgt; cbn. rewrite negb_false_iff. apply Qle_bool_iff.
Qed.
End ExactComparisons.

(** ** The borrower's best response (exact arithmetic) *)

Section BestResponse.
Local Open Scope Q_scope.

Lemma is_good_spec (bw : Borrower Q) : is_good bw = spec_good bw.
Proof. reflexivity. Qed.

Lemma accepted_spec (bw : Borrower Q) (t : Q) : accepted bw t = spec_accepted bw t.
Proof. reflexivity. Qed.

(** The utility comparison [U_adjust >= U_no] of [best_response], read as an
    inequality of rationals. *)
Lemma adjust_test (bw : Borrower Q) (d : Q) :
  fge (fsub (b bw) (fmul (k bw) (fsquare d)))
      (if is_good bw then fneg (h bw) else f0) = true
  <-> spec_U_no bw <= b bw - k bw * d ^ 2.
Proof.
rewrite fge_Q_true. unfold spec_U_no. change (spec_good bw) with (is_good bw).
cbn [fsub fmul fneg f0 Q_Scalar].
destruct (is_good bw); reflexivity.
Qed.

(** Below the threshold the gap [t - z] is positive, so the guard
    [delta <= 0] of [best_response] never fires. *)
Lemma safety_guard_dead (bw : Borrower Q) (t : Q) :
  z bw < t -> fle (fsub t (z bw)) f0 = false.
Proof.
intros L. apply fle_Q_false. change (0 < t - z bw). lra.
Qed.

Lemma best_response_above (bw : Borrower Q) (t : Q) :
  t <= z bw -> best_response bw t = 0.
Proof.
intros L. unfold best_response.
apply fge_Q_true in L. rewrite L. reflexivity.
Qed.

Lemma best_response_below (bw : Borrower Q) (t : Q) :
  z bw < t ->
  best_response bw t =
  if fge (fsub (b bw) (fmul (k bw) (fsquare (fsub t (z bw)))))
         (if is_good bw then fneg (h bw) else f0)
  then t - z bw else 0.
Proof.
intros L. unfold best_response.
rewrite (safety_guard_dead bw L).
apply fge_Q_false in L. rewrite L. reflexivity.
Qed.

Lemma best_response_adjusts (bw : Borrower Q) (t : Q) :
  z bw < t ->
  spec_U_no bw <= b bw - k bw * (t - z bw) ^ 2 ->
  best_response bw t = t - z bw.
Proof.
intros L U. rewrite (best_response_below bw L).
change (fsub t (z bw)) with (t - z bw).
apply (adjust_test bw (t - z bw)) in U. rewrite U. reflexivity.
Qed.

Lemma best_response_declines (bw : Borrower Q) (t : Q) :
  z bw < t ->
  b bw - k bw * (t - z bw) ^ 2 < spec_U_no bw ->
  best_response bw t = 0.
Proof.
intros L U. rewrite (best_response_below bw L).
change (fsub t (z bw)) with (t - z bw).
destruct (fge _ _) eqn:E; [|reflexivity].
apply (adjust_test bw (t - z bw)) in E.
exfalso. apply (Qlt_not_le _ _ U E).
Qed.

(** C2. For every borrower and threshold [t]: good means [z >= theta]; if
    [z >= t] the best response is [0]; otherwise, with [delta = t - z], it is
    [delta] when [b - k*delta^2 >= U_no] and [0] when [b - k*delta^2 < U_no],
    where [U_no] is [-h] for a good borrower and [0] otherwise; at the exact
    tie [b - k*delta^2 = U_no] it is [delta]. *)
Theorem best_response_cases (bw : Borrower Q) (t : Q) :
  is_good bw = Qle_bool (theta bw) (z bw) /\
  spec_U_no bw = (if is_good bw then - h bw else 0) /\
  (t <= z bw -> best_response bw t = 0) /\
  (z bw < t ->
   (spec_U_no bw <= b bw - k bw * (t - z bw) ^ 2 -> best_response bw t = t - z bw) /\
   (b bw - k bw * (t - z bw) ^ 2 < spec_U_no bw -> best_response bw t = 0) /\
   (b bw - k bw * (t - z bw) ^ 2 == spec_U_no bw -> best_response bw t = t - z bw)).
Proof.
split; [reflexivity|]. split; [reflexivity|].
split; [apply best_response_above|].
intros L. split; [apply best_response_adjusts, L|].
split; [apply best_response_declines, L|].
intros U. apply (best_response_adjusts bw L).
rewrite U. apply Qle_refl.
Qed.
End BestResponse.

(** ** Acceptance of a single borrower (exact arithmetic) *)

Section Acceptance.
Local Open Scope Q_scope.

Lemma accepted_iff (bw : Borrower Q) (t : Q) :
  accepted bw t = true <-> t <= z bw + best_response bw t.
Proof. unfold accepted, reported_score. apply fge_Q_true. Qed.

Lemma denied_iff (bw : Borrower Q) (t : Q) :
  accepted bw t = false <-> z bw + best_response bw t < t.
Proof. unfold accepted, reported_score. apply fge_Q_false. Qed.

(** The best response is either no adjustment or exactly the gap to the
    threshold, and the gap is only chosen below the threshold. *)
Lemma best_response_shape (bw : Borrower Q) (t : Q) :
  best_response bw t = 0 \/ (z bw < t /\ best_response bw t = t - z bw).
Proof.
destruct (Qlt_le_dec (z bw) t) as [L|L].
- rewrite (best_response_below bw L).
  destruct (fge _ _); [right; split; [exact L|reflexivity] | left; reflexivity].
- left. apply best_response_above, L.
Qed.

(** C10. For every borrower and threshold [t], [best_response(t) >= 0]; in
    exact arithmetic, whenever [best_response(t) > 0] the reported score
    [z + best_response(t)] equals [t], so the borrower is accepted; hence a
    denied borrower made no adjustment and bears adjustment cost [0], and no
    borrower is denied while bearing a positive adjustment cost. *)
Theorem adjustment_implies_acceptance (bw : Borrower Q) (t : Q) :
  0 <= best_response bw t /\
  (0 < best_response bw t ->
   z bw + best_response bw t == t /\ accepted bw t = true) /\
  (accepted bw t = false ->
   best_response bw t = 0 /\ adjustment_cost bw (best_response bw t) == 0) /\
  ~ (accepted bw t = false /\ 0 < adjustment_cost bw (best_response bw t)).
Proof.
assert (D : accepted bw t = false ->
            best_response bw t = 0 /\ adjustment_cost bw (best_response bw t) == 0).
{ intros A. apply denied_iff in A.
  destruct (best_response_shape bw t) as [E|[L E]].
  - split; [exact E|]. rewrite E. unfold adjustment_cost, fsquare; cbn. ring.
  - exfalso. rewrite E in A. lra. }
split; [|split; [|split]].
- destruct (best_response_shape bw t) as [E|[L E]]; rewrite E; lra.
- intros P. destruct (best_response_shape bw t) as [E|[L E]].
  + rewrite E in P. exfalso. lra.
  + assert (S : z bw + best_response bw t == t) by (rewrite E; ring).
    split; [exact S|]. apply accepted_iff. rewrite S. apply Qle_refl.
- exact D.
- intros [A P]. destruct (D A) as [_ C]. rewrite C in P. lra.
Qed.

(** The exactness of the arithmetic matters here.  In binary64 the sum
    [z + (t - z)] can round below [t]: the borrower with [z = -3.0] facing
    [t = -0.7] adjusts by [2.3], reports [-0.7000000000000002], is denied,
    and still bears the adjustment cost. *)
Example binary64_adjusts_yet_denied :
  let bw := mkBorrower (-3)%float 0.1%float 0%float 1%float 0.5%float true in
  let t := (-0.7)%float in
  PrimFloat.ltb 0%float (best_response bw t) = true /\
  accepted bw t = false /\
  PrimFloat.ltb 0%float (adjustment_cost bw (best_response bw t)) = true.
Proof. cbv zeta. repeat split; vm_compute; reflexivity. Qed.

(** At a threshold where adjusting does not pay, a borrower makes no
    adjustment. *)
Lemma no_adjustment_at (bw : Borrower Q) (t : Q) :
  (z bw < t -> b bw - k bw * (t - z bw) ^ 2 < spec_U_no bw) ->
  best_response bw t = 0.
Proof.
intros Hk. destruct (Qlt_le_dec (z bw) t) as [L|L].
- apply (best_response_declines bw L), Hk, L.
- apply best_response_above, L.
Qed.

(** C9. For a borrower whose cost coefficient [k] is large enough that
    adjusting is never beneficial, acceptance is non-increasing in the
    threshold: accepted at [t2], it is accepted at every [t1 <= t2].
    "Never beneficial" is asked only of the thresholds [T] under
    consideration ([b - k*(t - z)^2 < U_no] for every [t > z] in [T]); the
    claim's "for all [t > z]" is the case where [T] holds of every
    threshold.  Over the rationals that case forces [b <= U_no], whereas a
    set of thresholds that stays clear of [z] from above, as a grid does,
    admits borrowers of positive benefit with a large [k].  On [T] the
    borrower is accepted exactly when [z >= t]. *)
Theorem acceptance_antitone (bw : Borrower Q) (T : Q -> Prop) :
  (forall t, T t -> z bw < t -> b bw - k bw * (t - z bw) ^ 2 < spec_U_no bw) ->
  (forall t, T t -> (accepted bw t = true <-> t <= z bw)) /\
  (forall t1 t2, T t2 -> t1 <= t2 -> accepted bw t2 = true -> accepted bw t1 = true).
Proof.
intros Hk.
assert (Step : forall t, T t -> (accepted bw t = true <-> t <= z bw)).
{ intros t Ht. rewrite accepted_iff, (no_adjustment_at bw (Hk t Ht)).
  split; intros L; lra. }
split; [exact Step|].
intros t1 t2 Ht2 L A. apply (Step t2 Ht2) in A.
apply accepted_iff. rewrite (best_response_above bw (t := t1)); lra.
Qed.

Lemma acceptance_antitone_witness :
  let bw := mkBorrower 0 100 (-1) 1 (1 # 2) false in
  let T := fun t : Q => t <= 0 \/ 1 <= t in
  (forall t, T t -> z bw < t -> b bw - k bw * (t - z bw) ^ 2 < spec_U_no bw) /\
  spec_U_no bw < b bw /\
  T 0 /\ -2 <= 0 /\
  accepted bw 0 = true /\
  accepted bw (-2) = true /\
  accepted bw 1 = false.
Proof.
intros bw T.
assert (Hk : forall t, T t -> z bw < t ->
                       b bw - k bw * (t - z bw) ^ 2 < spec_U_no bw).
{ intros t [Ht|Ht] L; change (0 < t) in L;
    change (1 - 100 * (t - 0) ^ 2 < - (1 # 2)); simpl; nra. }
assert (T0 : T 0) by (left; lra).
assert (L : -2 <= 0) by lra.
assert (A : accepted bw 0 = true) by reflexivity.
split; [exact Hk|]. split; [reflexivity|]. split; [exact T0|]. split; [exact L|].
split; [exact A|].
split; [exact (proj2 (acceptance_antitone bw T Hk) (-2) 0 T0 L A)|reflexivity].
Defined.
End Acceptance.

(** ** The loop of [evaluate_threshold], one variable at a time *)

Section EvaluateLoop.
Context {F G : Type} `{Scalar F} `{Generator F G}.
Variable self : StrategicLendingEnv F G.
Variable t : F.

Lemma step_Pi (v : Locals.t F) (bw : Borrower F) :
  Locals.Pi (evaluate_step self t v bw) =
  if accepted bw t
  then (if is_good bw then fadd (Locals.Pi v) (pi_G self)
        else fadd (Locals.Pi v) (pi_B self))
  else Locals.Pi v.
Proof. unfold evaluate_step. destruct (is_low_cost bw); reflexivity. Qed.

Lemma step_H (v : Locals.t F) (bw : Borrower F) :
  Locals.H (evaluate_step self t v bw) =
  if negb (accepted bw t) && is_good bw then S (Locals.H v) else Locals.H v.
Proof. unfold evaluate_step. destruct (is_low_cost bw); reflexivity. Qed.

Lemma step_n_L (v : Locals.t F) (bw : Borrower F) :
  Locals.n_L (evaluate_step self t v bw) =
  if is_low_cost bw then S (Locals.n_L v) else Locals.n_L v.
Proof. unfold evaluate_step. destruct (is_low_cost bw); reflexivity. Qed.

Lemma step_n_H (v : Locals.t F) (bw : Borrower F) :
  Locals.n_H (evaluate_step self t v bw) =
  if is_low_cost bw then Locals.n_H v else S (Locals.n_H v).
Proof. unfold evaluate_step. destruct (is_low_cost bw); reflexivity. Qed.

(** A group without members leaves its counter where it started. *)
Lemma loop_n_L_no_low (bs : list (Borrower F)) (v : Locals.t F) :
  forallb (fun bw => negb (is_low_cost bw)) bs = true ->
  Locals.n_L (fold_left (evaluate_step self t) bs v) = Locals.n_L v.
Proof.
revert v. induction bs as [|bw bs IH]; intros v A; [reflexivity|].
cbn in A. apply andb_true_iff in A as [A1 A2].
cbn [fold_left]. rewrite (IH _ A2), step_n_L.
apply negb_true_iff in A1. rewrite A1. reflexivity.
Qed.

Lemma loop_n_H_no_high (bs : list (Borrower F)) (v : Locals.t F) :
  forallb (fun bw => is_low_cost bw) bs = true ->
  Locals.n_H (fold_left (evaluate_step self t) bs v) = Locals.n_H v.
Proof.
revert v. induction bs as [|bw bs IH]; intros v A; [reflexivity|].
cbn in A. apply andb_true_iff in A as [A1 A2].
cbn [fold_left]. rewrite (IH _ A2), step_n_H, A1. reflexivity.
Qed.
End EvaluateLoop.

(** ** Empty groups *)

Section EmptyGroups.
Context {F G : Type} `{Scalar F} `{Generator F G}.
Variable self : StrategicLendingEnv F G.
Variables t lam : F.

Lemma no_low_cost_stats :
  forallb (fun bw => negb (is_low_cost bw)) (borrowers self) = true ->
  Stats.acc_L (snd (evaluate_threshold self t lam)) = f0 /\
  Stats.avg_cost_L (snd (evaluate_threshold self t lam)) = f0.
Proof.
intros A. unfold evaluate_threshold, evaluate_loop. cbn [snd Stats.acc_L Stats.avg_cost_L].
rewrite (loop_n_L_no_low self t _ _ A). split; reflexivity.
Qed.

Lemma no_high_cost_stats :
  forallb (fun bw => is_low_cost bw) (borrowers self) = true ->
  Stats.acc_H (snd (evaluate_threshold self t lam)) = f0 /\
  Stats.avg_cost_H (snd (evaluate_threshold self t lam)) = f0.
Proof.
intros A. unfold evaluate_threshold, evaluate_loop. cbn [snd Stats.acc_H Stats.avg_cost_H].
rewrite (loop_n_H_no_high self t _ _ A). split; reflexivity.
Qed.

Lemma empty_population_stats :
  borrowers self = [] ->
  snd (evaluate_threshold self t lam) = Stats.mk f0 0 f0 f0 f0 f0.
Proof.
intros E. unfold evaluate_threshold, evaluate_loop. rewrite E. reflexivity.
Qed.

(** C4. For every threshold [t] and penalty [lam]: on a population whose
    low-cost (respectively high-cost) group has no member,
    [evaluate_threshold] returns acceptance rate [0.0] and average adjustment
    cost [0.0] for that group; on the empty population it returns [Pi = 0],
    [H = 0] and all four group statistics [0.0].  The function is total: no
    division is evaluated for an empty group, so nothing is raised and the
    value is the literal [0.0], in every arithmetic. *)
Theorem empty_group_statistics :
  let stats := snd (evaluate_threshold self t lam) in
  (forallb (fun bw => negb (is_low_cost bw)) (borrowers self) = true ->
   Stats.acc_L stats = f0 /\ Stats.avg_cost_L stats = f0) /\
  (forallb (fun bw => is_low_cost bw) (borrowers self) = true ->
   Stats.acc_H stats = f0 /\ Stats.avg_cost_H stats = f0) /\
  (borrowers self = [] ->
   Stats.Pi stats = f0 /\ Stats.H stats = 0 /\
   Stats.acc_L stats = f0 /\ Stats.acc_H stats = f0 /\
   Stats.avg_cost_L stats = f0 /\ Stats.avg_cost_H stats = f0).
Proof.
intros stats. split; [exact no_low_cost_stats|]. split; [exact no_high_cost_stats|].
intros E. unfold stats. rewrite (empty_population_stats E). cbn. repeat split.
Qed.
End EmptyGroups.

(** In binary64 the statistics of an empty group are the double [0.0], which
    is neither NaN nor infinite. *)
Lemma empty_group_not_nan {G : Type} `{Generator float G}
      (self : StrategicLendingEnv float G) (t lam : float) :
  forallb (fun bw => negb (is_low_cost bw)) (borrowers self) = true ->
  PrimFloat.is_nan (Stats.acc_L (snd (evaluate_threshold self t lam))) = false /\
  PrimFloat.is_nan (Stats.avg_cost_L (snd (evaluate_threshold self t lam))) = false.
Proof.
intros A. destruct (no_low_cost_stats self t lam A) as [E1 E2].
rewrite E1, E2. split; reflexivity.
Qed.

(** ** The objective (exact arithmetic) *)

Section Objective.
Local Open Scope Q_scope.
Context {G : Type} `{Generator Q G}.
Variable self : StrategicLendingEnv Q G.
Variable t : Q.

Lemma step_Pi_spec (v : Locals.t Q) (bw : Borrower Q) :
  Locals.Pi (evaluate_step self t v bw) == Locals.Pi v + spec_profit self t bw.
Proof.
rewrite step_Pi. unfold spec_profit.
rewrite accepted_spec, is_good_spec.
destruct (spec_accepted bw t); [destruct (spec_good bw)|]; cbn [fadd Q_Scalar]; ring.
Qed.

Lemma loop_Pi_spec (bs : list (Borrower Q)) (v : Locals.t Q) :
  Locals.Pi (fold_left (evaluate_step self t) bs v) ==
  Locals.Pi v + Qsum (map (spec_profit self t) bs).
Proof.
revert v. induction bs as [|bw bs IH]; intros v; cbn [fold_left map Qsum].
- ring.
- rewrite IH, step_Pi_spec. ring.
Qed.

Lemma loop_H_spec (bs : list (Borrower Q)) (v : Locals.t Q) :
  Locals.H (fold_left (evaluate_step self t) bs v) =
  (Locals.H v +
   length (filter (fun bw => spec_good bw && negb (spec_accepted bw t)) bs))%nat.
Proof.
revert v. induction bs as [|bw bs IH]; intros v; cbn [fold_left filter].
- cbn. lia.
- rewrite IH, step_H, accepted_spec, is_good_spec.
  rewrite (andb_comm (negb _)).
  destruct (spec_good bw && negb (spec_accepted bw t))%bool; cbn [length]; lia.
Qed.

(** C1. For every population, threshold [t] and penalty [lam],
    [evaluate_threshold(t, lam)] returns [objective = Pi - lam*H], where [Pi]
    is the sum over the borrowers of [pi_G] for each accepted good borrower
    and [pi_B] for each accepted non-good one ([0] for a denied one), [H] is
    the number of borrowers that are good ([z >= theta]) and not accepted,
    and a borrower is accepted exactly when [z + best_response(t) >= t]. *)
Theorem evaluate_threshold_objective (lam : Q) :
  let '(obj, stats) := evaluate_threshold self t lam in
  obj == spec_Pi self t - lam * inject_Z (Z.of_nat (spec_H self t)) /\
  Stats.Pi stats == spec_Pi self t /\
  Stats.H stats = spec_H self t /\
  (forall bw, accepted bw t = true <-> t <= z bw + best_response bw t) /\
  (forall bw, is_good bw = true <-> theta bw <= z bw).
Proof.
unfold evaluate_threshold, evaluate_loop, spec_Pi, spec_H.
cbn [Stats.Pi Stats.H].
pose proof (loop_Pi_spec (borrowers self) evaluate_init) as P.
pose proof (loop_H_spec (borrowers self) evaluate_init) as E.
cbn [evaluate_init Locals.Pi Locals.H f0 Q_Scalar] in P, E.
rewrite Nat.add_0_l in E. rewrite Qplus_0_l in P.
split; [|split; [exact P|split; [exact E|split]]].
- cbn [fsub fmul of_count Q_Scalar]. rewrite P, E. reflexivity.
- intros bw. apply accepted_iff.
- intros bw. apply fge_Q_true.
Qed.
End Objective.

(** ** The concrete scenario of three borrowers *)

Section Scenario.
Local Open Scope Q_scope.

(** C8. Three borrowers with [theta = 0]: A([z=-1], [k=0.1], [b=1],
    [h=0.5]), B([z=0], [k=0.1]) and C([z=2], [k=0.1]), with any [b], [h] for
    B and C, evaluated at [t = 0] with [pi_G = 0.2], [pi_B = -0.2]: A adjusts
    by [delta = 1] and is accepted as not good, B and C are accepted as good,
    and the totals are [Pi = 0.2], [H = 0]. *)
Theorem three_borrower_scenario (bB hB bC hC lam : Q) (lA lB lC : bool) :
  let A := mkBorrower (-1) (1 # 10) 0 1 (1 # 2) lA in
  let B := mkBorrower 0 (1 # 10) 0 bB hB lB in
  let C := mkBorrower 2 (1 # 10) 0 bC hC lC in
  let self := env_of (2 # 10) (- (2 # 10)) [A; B; C] in
  let stats := snd (evaluate_threshold self 0 lam) in
  best_response A 0 == 1 /\
  accepted A 0 = true /\ is_good A = false /\
  accepted B 0 = true /\ is_good B = true /\
  accepted C 0 = true /\ is_good C = true /\
  Stats.Pi stats == 2 # 10 /\
  Stats.H stats = 0%nat.
Proof.
destruct lA, lB, lC; cbv zeta; repeat split; reflexivity.
Qed.

(** The same scenario in binary64: the running sum is
    [0.0 + (-0.2) + 0.2 + 0.2], which is the double [0.2]. *)
Example scenario_in_binary64 (bB hB bC hC lam : float) :
  let A := mkBorrower (-1)%float 0.1%float 0%float 1%float 0.5%float true in
  let B := mkBorrower 0%float 0.1%float 0%float bB hB false in
  let C := mkBorrower 2%float 0.1%float 0%float bC hC false in
  let self := env_of 0.2%float (-0.2)%float [A; B; C] in
  let stats := snd (evaluate_threshold self 0%float lam) in
  best_response A 0%float = 1%float /\
  Stats.Pi stats = 0.2%float /\ Stats.H stats = 0%nat.
Proof.
cbv zeta. repeat split; vm_compute; reflexivity.
Qed.
End Scenario.

(** ** The grid scan, one threshold at a time *)

Section ScanLoop.
Context {F G : Type} `{Scalar F} `{Generator F G}.
Variable self : StrategicLendingEnv F G.
Variable lam : F.

Lemma scan_snoc (l : list F) (t : F) :
  scan self lam (l ++ [t]) = scan_step self lam (scan self lam l) t.
Proof. unfold scan. rewrite fold_left_app. reflexivity. Qed.

Lemma scan_step_eq (best : option (Best.t F)) (t : F) :
  scan_step self lam best t =
  if match best with
     | None => above_neg_inf (objective self lam t)
     | Some bst => fgt (objective self lam t) (Best.best_obj bst)
     end
  then Some (Best.mk (objective self lam t) t (snd (evaluate_threshold self t lam)))
  else best.
Proof.
unfold scan_step, objective.
destruct (evaluate_threshold self t lam) as [obj stats].
destruct best; reflexivity.
Qed.
End ScanLoop.

(** ** The grid scan (exact arithmetic) *)

Section GridScan.
Local Open Scope Q_scope.
Context {G : Type} `{Generator Q G}.
Variable self : StrategicLendingEnv Q G.

Lemma scan_retained (lam : Q) (l : list Q) : retained self lam l (scan self lam l).
Proof.
induction l as [|t l IH] using rev_ind; [reflexivity|].
rewrite scan_snoc, scan_step_eq.
destruct (scan self lam l) as [bst|]; cbn [retained] in IH.
- destruct IH as ((pre & post & E & Hpre & Hpost) & Eobj & Estats).
  rewrite Eobj.
  destruct (fgt _ _) eqn:C.
  + apply fgt_Q_true in C.
    cbn [retained Best.best_t Best.best_obj Best.best_stats].
    split; [|split; reflexivity].
    exists l, []. split; [reflexivity|]. split; [|intros ? []].
    intros u Hu. rewrite E in Hu.
    apply in_app_or in Hu as [Hu|[<-|Hu]].
    * eapply Qlt_trans; [apply Hpre, Hu|exact C].
    * exact C.
    * eapply Qle_lt_trans; [apply Hpost, Hu|exact C].
  + apply fgt_Q_false in C.
    cbn [retained]. split; [|split; assumption].
    exists pre, (post ++ [t]). split; [|split; [exact Hpre|]].
    * rewrite E, <- app_assoc. reflexivity.
    * intros u Hu. apply in_app_or in Hu as [Hu|[<-|[]]];
        [apply Hpost, Hu|exact C].
- subst l. cbn [above_neg_inf Q_Scalar retained Best.best_t Best.best_obj Best.best_stats].
  split; [|split; reflexivity].
  exists [], []. split; [reflexivity|]. split; intros ? [].
Qed.

(** A non-empty grid always retains a threshold. *)
Lemma scan_nonempty (lam : Q) (t_grid : list Q) :
  t_grid <> [] -> exists bst, scan self lam t_grid = Some bst.
Proof.
intros NE. pose proof (scan_retained lam t_grid) as R.
destruct (scan self lam t_grid) as [bst|]; [eauto|].
cbn in R. contradiction.
Qed.

Lemma sweep_step_ok (t_grid : list Q) (results : list (SweepRow.t Q)) (lam : Q) :
  t_grid <> [] ->
  exists r, sweep_step self t_grid results lam = Ok (results ++ [r]) /\
            SweepRow.lambda r = lam /\ row_correct self t_grid r.
Proof.
intros NE. unfold sweep_step.
pose proof (scan_retained lam t_grid) as R.
destruct (scan_nonempty lam NE) as [bst E]. rewrite E in *.
destruct R as (M & _ & S).
eexists. split; [reflexivity|]. split; [reflexivity|].
split; cbn [SweepRow.lambda SweepRow.t_star]; [exact M|].
rewrite <- S. destruct (Best.best_stats bst). reflexivity.
Qed.

Lemma sweep_loop_ok (t_grid lambda_grid : list Q) (results : list (SweepRow.t Q)) :
  t_grid <> [] ->
  exists rows,
    for_each (sweep_step self t_grid) lambda_grid results = Ok (results ++ rows) /\
    map (@SweepRow.lambda Q) rows = lambda_grid /\
    Forall (row_correct self t_grid) rows.
Proof.
intros NE. revert results.
induction lambda_grid as [|lam lambda_grid IH]; intros results; cbn [for_each].
- exists []. rewrite app_nil_r. repeat split. constructor.
- destruct (sweep_step_ok results lam NE) as (r & E & El & Hr).
  rewrite E. cbn [bind].
  destruct (IH (results ++ [r])) as (rows & E' & Em & Hf).
  exists (r :: rows). rewrite E', <- app_assoc. split; [reflexivity|].
  split; [cbn; congruence|constructor; assumption].
Qed.

(** C3, amended. For every [lambda_grid] and every non-empty [t_grid],
    [sweep_lambda] returns one record per entry of [lambda_grid], in the
    order of [lambda_grid]; the [t_star] of each record maximises the
    objective over the grid and is the earliest threshold, in [t_grid] order,
    that does so (every earlier one scores strictly less), and the record
    carries the statistics evaluated at [t_star]. *)
Theorem sweep_lambda_first_maximisers (lambda_grid t_grid : list Q) :
  t_grid <> [] ->
  exists rows,
    sweep_lambda self lambda_grid t_grid = Ok rows /\
    map (@SweepRow.lambda Q) rows = lambda_grid /\
    Forall (row_correct self t_grid) rows.
Proof.
intros NE. apply (sweep_loop_ok lambda_grid [] NE).
Qed.

(** With nothing to scan, [best_stats] is still [None] when it is
    subscripted. *)
Lemma sweep_lambda_empty_grid (lam : Q) (lambda_grid : list Q) :
  sweep_lambda self (lam :: lambda_grid) [] = Raise TypeError.
Proof. reflexivity. Qed.
End GridScan.

(** C3 as stated fails on an empty threshold grid: asked for one penalty,
    [sweep_lambda] raises [TypeError] instead of returning one record. *)
Lemma sweep_lambda_empty_grid_raises :
  sweep_lambda sample_env [0%Q] [] = Raise TypeError /\
  ~ (exists rows, sweep_lambda sample_env [0%Q] [] = Ok rows /\
                  length rows = length [0%Q]).
Proof.
split; [reflexivity|]. intros (rows & E & _). discriminate E.
Qed.

Lemma sweep_lambda_first_maximisers_witness :
  let t_grid := [-3 # 1; -1 # 1; 1 # 2; 1 # 1; 3 # 1]%Q in
  let lambda_grid := [0 # 1; 1 # 1]%Q in
  t_grid <> [] /\
  exists rows,
    sweep_lambda sample_env lambda_grid t_grid = Ok rows /\
    map (@SweepRow.lambda Q) rows = lambda_grid /\
    Forall (row_correct sample_env t_grid) rows.
Proof.
intros t_grid lambda_grid.
assert (NE : t_grid <> []) by discriminate.
split; [exact NE|].
exact (sweep_lambda_first_maximisers sample_env lambda_grid NE).
Defined.

(** ** The grid scan in binary64 *)

Section Binary64Order.
Local Open Scope float_scope.

Lemma Prim2SF_nan_iff (x : float) : Prim2SF x = S754_nan <-> is_nan x = true.
Proof.
unfold Prim2SF. destruct (is_nan x); split; try reflexivity; try discriminate.
destruct (PrimFloat.is_zero x); [discriminate|].
destruct (PrimFloat.is_infinity x); [discriminate|].
destruct (FloatOps.Z.frexp x) as [r e].
destruct (shr_fexp _ _ _ _ _) as [shr e'].
destruct (shr_m shr); discriminate.
Qed.

(** Whatever is strictly above some double is a number above [-inf]. *)
Lemma ltb_above_neg_inf (x y : float) :
  (x <? y) = true -> (neg_infinity <? y) = true.
Proof.
rewrite !FloatAxioms.ltb_spec.
change (Prim2SF neg_infinity) with (S754_infinity true).
unfold SFltb.
destruct (Prim2SF x) as [[]|[]| |[] ? ?], (Prim2SF y) as [[]|[]| |[] ? ?];
  cbn; congruence.
Qed.

Lemma above_neg_inf_not_nan (y : float) :
  (neg_infinity <? y) = true -> is_nan y = false.
Proof.
rewrite FloatAxioms.ltb_spec. intros L.
destruct (is_nan y) eqn:E; [|reflexivity].
apply Prim2SF_nan_iff in E. rewrite E in L. discriminate L.
Qed.

Lemma above_neg_inf_neq (y : float) :
  (neg_infinity <? y) = true -> y <> neg_infinity.
Proof. intros L ->. discriminate L. Qed.

(** Nothing is strictly above [+inf]. *)
Lemma ltb_infinity_l (y : float) : (infinity <? y) = false.
Proof.
rewrite FloatAxioms.ltb_spec.
change (Prim2SF infinity) with (S754_infinity false).
unfold SFltb. destruct (Prim2SF y) as [[]|[]| |[] ? ?]; reflexivity.
Qed.

(** [+inf] is strictly above every other number. *)
Lemma ltb_infinity_r (x : float) :
  is_nan x = false -> (x <? infinity) = true \/ x = infinity.
Proof.
intros N. rewrite FloatAxioms.ltb_spec.
change (Prim2SF infinity) with (S754_infinity false).
unfold SFltb.
destruct (Prim2SF x) as [[]|[]| |[] ? ?] eqn:P; cbn; auto.
- right. apply Prim2SF_inj. rewrite P. reflexivity.
- apply Prim2SF_nan_iff in P. congruence.
Qed.
End Binary64Order.

Section Binary64Scan.
Local Open Scope float_scope.
Context {G : Type} `{Generator float G}.
(** What the scan holds after reading [l]. *)
Lemma scan64_retained (self : StrategicLendingEnv float G) (lam : float) (l : list float) :
  match scan self lam l with
  | None => nothing_above_neg_inf self lam l
  | Some bst =>
      In (Best.best_t bst) l /\
      Best.best_obj bst = objective self lam (Best.best_t bst) /\
      Best.best_stats bst = snd (evaluate_threshold self (Best.best_t bst) lam) /\
      (neg_infinity <? Best.best_obj bst) = true
  end.
Proof.
induction l as [|t l IH] using rev_ind; [intros ? []|].
rewrite scan_snoc, scan_step_eq.
destruct (scan self lam l) as [bst|].
- destruct IH as (I & Eo & Es & A).
  destruct (fgt _ _) eqn:C; cbn [Best.best_t Best.best_obj Best.best_stats].
  + repeat split; [apply in_or_app; right; left; reflexivity|].
    apply (ltb_above_neg_inf C).
  + repeat split; try assumption. apply in_or_app; left; exact I.
- destruct (above_neg_inf _) eqn:C; cbn [Best.best_t Best.best_obj Best.best_stats].
  + repeat split; [apply in_or_app; right; left; reflexivity|exact C].
  + intros u Hu. apply in_app_or in Hu as [Hu|[<-|[]]]; [apply IH, Hu|exact C].
Qed.

(** Once some threshold scores [+inf], the retained objective is [+inf]. *)
Lemma scan64_infinity (self : StrategicLendingEnv float G) (lam : float) (l : list float) :
  (exists t, In t l /\ objective self lam t = infinity) ->
  exists bst, scan self lam l = Some bst /\ Best.best_obj bst = infinity.
Proof.
induction l as [|t l IH] using rev_ind; [intros (? & [] & _)|].
intros (u & Hu & Eu). rewrite scan_snoc, scan_step_eq.
apply in_app_or in Hu as [Hu|[<-|[]]].
- destruct IH as (bst & E & Ei); [exists u; split; assumption|].
  rewrite E. unfold fgt; cbn [flt Binary64_Scalar].
  rewrite Ei, ltb_infinity_l. eauto.
- pose proof (scan64_retained self lam l) as R.
  destruct (scan self lam l) as [bst|].
  + destruct R as (_ & _ & _ & A). apply above_neg_inf_not_nan in A.
    unfold fgt; cbn [flt Binary64_Scalar]. rewrite Eu.
    destruct (ltb_infinity_r _ A) as [L|L].
    * rewrite L. eexists. split; reflexivity.
    * rewrite L, ltb_infinity_l. eauto.
  + rewrite Eu. cbn. eexists. split; reflexivity.
Qed.

Lemma scan64_selected (self : StrategicLendingEnv float G) (lam : float) (t_grid : list float) (bst : Best.t float) :
  scan self lam t_grid = Some bst ->
  selected64 self lam t_grid (Best.best_t bst) /\
  Best.best_stats bst = snd (evaluate_threshold self (Best.best_t bst) lam).
Proof.
intros E. pose proof (scan64_retained self lam t_grid) as R. rewrite E in R.
destruct R as (I & Eo & Es & A). split; [|exact Es].
rewrite Eo in A. split; [exact I|]. split; [apply above_neg_inf_not_nan, A|].
split; [apply above_neg_inf_neq, A|].
intros X. destruct (scan64_infinity _ X) as (bst' & E' & Ei).
congruence.
Qed.

Lemma sweep64_loop (self : StrategicLendingEnv float G) (t_grid lambda_grid : list float) (results : list (SweepRow.t float)) :
  match for_each (sweep_step self t_grid) lambda_grid results with
  | Ok out =>
      exists rows,
        out = results ++ rows /\
        map (@SweepRow.lambda float) rows = lambda_grid /\
        Forall (fun r => selected64 self (SweepRow.lambda r) t_grid (SweepRow.t_star r)) rows
  | Raise e =>
      e = TypeError /\
      exists lam, In lam lambda_grid /\ nothing_above_neg_inf self lam t_grid
  end.
Proof.
revert results. induction lambda_grid as [|lam lambda_grid IH]; intros results.
- exists []. rewrite app_nil_r. repeat split. constructor.
- cbn [for_each]. unfold sweep_step at 1.
  pose proof (scan64_retained self lam t_grid) as R.
  destruct (scan self lam t_grid) as [bst|] eqn:E; cbn [bind].
  + apply scan64_selected in E as [Sel _].
    match goal with |- context [for_each _ _ ?acc] => specialize (IH acc) end.
    destruct (for_each _ _ _) as [out|e].
    * destruct IH as (rows & -> & Em & Hf).
      eexists (_ :: rows). rewrite <- app_assoc. split; [reflexivity|].
      split; [cbn; congruence|]. constructor; [exact Sel|exact Hf].
    * destruct IH as (-> & lam' & I' & N'). split; [reflexivity|].
      exists lam'. split; [right; exact I'|exact N'].
  + split; [reflexivity|]. exists lam. split; [left; reflexivity|exact R].
Qed.

End Binary64Scan.


(** ** The stable sort *)

Section StableSort.
Context {F : Type} `{Scalar F}.
Variable A : Type.
Variable key : A -> F.

Lemma insert_by_perm (x : A) (l : list A) :
  Permutation (insert_by key x l) (x :: l).
Proof.
induction l as [|y l IH]; cbn [insert_by]; [reflexivity|].
destruct (flt (key y) (key x)); [|reflexivity].
rewrite IH. apply perm_swap.
Qed.

Lemma sort_by_perm (l : list A) : Permutation (sort_by key l) l.
Proof.
induction l as [|x l IH]; cbn [sort_by]; [reflexivity|].
rewrite insert_by_perm. constructor. exact IH.
Qed.

Lemma sorted_perm (l : list A) (reverse : bool) :
  Permutation (sorted key l reverse) l.
Proof.
unfold sorted. destruct reverse; [|apply sort_by_perm].
rewrite <- Permutation_rev, sort_by_perm. symmetry. apply Permutation_rev.
Qed.

(** Stability.  [p] picks out elements none of which is below another (a
    class of equal keys): sorting leaves them in their original order. *)
Section Stability.
Variable p : A -> bool.
Hypothesis p_ties : forall a a', p a = true -> p a' = true -> flt (key a) (key a') = false.

Lemma insert_by_stable (x : A) (l : list A) :
  filter p (insert_by key x l) = filter p (x :: l).
Proof.
induction l as [|y l IH]; cbn [insert_by]; [reflexivity|].
destruct (flt (key y) (key x)) eqn:C; [|reflexivity].
cbn [filter] in *. rewrite IH.
destruct (p y) eqn:Py, (p x) eqn:Px; try reflexivity.
rewrite (p_ties Py Px) in C. discriminate C.
Qed.

Lemma sort_by_stable (l : list A) : filter p (sort_by key l) = filter p l.
Proof.
induction l as [|x l IH]; cbn [sort_by]; [reflexivity|].
rewrite insert_by_stable. cbn [filter]. rewrite IH. reflexivity.
Qed.

Lemma filter_rev (l : list A) : filter p (rev l) = rev (filter p l).
Proof.
induction l as [|x l IH]; [reflexivity|].
cbn [rev filter]. rewrite filter_app, IH. cbn [filter].
destruct (p x); [reflexivity|]. apply app_nil_r.
Qed.

Lemma sorted_stable (l : list A) (reverse : bool) :
  filter p (sorted key l reverse) = filter p l.
Proof.
unfold sorted. destruct reverse; [|apply sort_by_stable].
rewrite filter_rev, sort_by_stable, filter_rev. apply rev_involutive.
Qed.
End Stability.
End StableSort.

Lemma StronglySorted_snoc (A : Type) (R : A -> A -> Prop) (l : list A) (x : A) :
  StronglySorted R l -> Forall (fun y => R y x) l -> StronglySorted R (l ++ [x]).
Proof.
induction 1 as [|y l S IH Hy]; intros Hx; cbn [app].
- repeat constructor.
- inversion Hx as [|? ? Ryx Hx']; subst. constructor.
  + apply IH, Hx'.
  + apply Forall_app. split; [exact Hy|]. repeat constructor. exact Ryx.
Qed.

(** Reversing a sorted list reverses its order. *)
Lemma StronglySorted_rev (A : Type) (R : A -> A -> Prop) (l : list A) :
  StronglySorted R l -> StronglySorted (fun a a' => R a' a) (rev l).
Proof.
induction 1 as [|x l S IH Hx]; cbn [rev]; [constructor|].
apply StronglySorted_snoc; [exact IH|].
apply Forall_rev. exact Hx.
Qed.

Section SortQ.
Local Open Scope Q_scope.
Variable A : Type.
Variable key : A -> Q.

Lemma insert_by_sorted (x : A) (l : list A) :
  StronglySorted (fun a a' => key a <= key a') l ->
  StronglySorted (fun a a' => key a <= key a') (insert_by key x l).
Proof.
induction 1 as [|y l S IH Hy]; cbn [insert_by]; [repeat constructor|].
destruct (flt (key y) (key x)) eqn:C.
- constructor; [exact IH|].
  rewrite (insert_by_perm key x l). constructor; [|exact Hy].
  cbn in C. apply negb_true_iff in C. apply (fge_Q_false (key y) (key x)) in C.
  apply Qlt_le_weak, C.
- cbn in C. apply negb_false_iff, Qle_bool_iff in C.
  constructor; [constructor; assumption|].
  constructor; [exact C|].
  eapply Forall_impl; [|exact Hy]. intros a Ha. cbn beta in *.
  eapply Qle_trans; eassumption.
Qed.

Lemma sort_by_sorted (l : list A) :
  StronglySorted (fun a a' => key a <= key a') (sort_by key l).
Proof.
induction l as [|x l IH]; cbn [sort_by]; [constructor|].
apply insert_by_sorted, IH.
Qed.

(** [sorted(l, key=key, reverse=True)] is in descending key order. *)
Lemma sorted_reverse_descending (l : list A) :
  StronglySorted (fun a a' => key a' <= key a) (sorted key l true).
Proof.
unfold sorted. apply StronglySorted_rev, sort_by_sorted.
Qed.

(** Elements whose key equals [v] are never below one another. *)
Lemma tie_class (v : Q) (a a' : A) :
  Qeq_bool (key a) v = true -> Qeq_bool (key a') v = true ->
  flt (key a) (key a') = false.
Proof.
intros Ea Ea'. apply Qeq_bool_iff in Ea, Ea'.
cbn. apply negb_false_iff, Qle_bool_iff. rewrite Ea, Ea'. apply Qle_refl.
Qed.
End SortQ.

(** ** The parameter-space explorer (exact arithmetic) *)

(** A loop whose body only ever appends, and never raises, appends. *)
Lemma for_each_appends (A B : Type) (body : list B -> A -> result (list B)) :
  (forall acc x, exists l, body acc x = Ok (acc ++ l)) ->
  forall xs acc, exists l, for_each body xs acc = Ok (acc ++ l).
Proof.
intros Hb xs. induction xs as [|x xs IH]; intros acc; cbn [for_each].
- exists []. rewrite app_nil_r. reflexivity.
- destruct (Hb acc x) as [l E]. rewrite E. cbn [bind].
  destruct (IH (acc ++ l)) as [l' E']. rewrite E', <- app_assoc. eauto.
Qed.

Section Explorer.
Local Open Scope Q_scope.
Context {G : Type} `{Generator Q G}.
Variable N : nat.
Variables theta z_mean z_std : Q.
Variable t_grid : list Q.

Lemma regime_of_ok (p_L b h k_L k_H pi_G pi_B : Q) :
  N <> 0%nat -> t_grid <> [] ->
  exists r, regime_of (G := G) N theta z_mean z_std t_grid
                      p_L b h k_L k_H pi_G pi_B = Ok r.
Proof.
intros HN NE. unfold regime_of, find_unregulated_optimum.
match goal with |- context [scan ?e ?l t_grid] =>
  destruct (scan_nonempty e l NE) as [bst E]; rewrite E
end.
apply Nat.eqb_neq in HN. rewrite HN. eauto.
Qed.

Lemma enumerate_ok (p_L_grid b_grid h_grid k_L_grid k_H_grid pi_G_grid pi_B_grid : list Q) :
  N <> 0%nat -> t_grid <> [] ->
  exists results,
    enumerate (G := G) N theta z_mean z_std t_grid
              p_L_grid b_grid h_grid k_L_grid k_H_grid pi_G_grid pi_B_grid = Ok results.
Proof.
intros HN NE. unfold enumerate.
match goal with |- exists r, for_each ?body ?grid [] = Ok r =>
  assert (Hb : forall acc x, exists l, body acc x = Ok (acc ++ l));
    [|destruct (for_each_appends body Hb grid []) as [l E]; exists l; exact E]
end.
do 6 (intros ? ?; apply for_each_appends).
intros results pi_B.
match goal with |- context [regime_of ?a ?b ?c ?d ?e ?f ?g ?h ?i ?j ?k ?l] =>
  destruct (regime_of_ok f g h i j k l HN NE) as [r E]
end.
rewrite E. exists [r]. reflexivity.
Qed.

(** C6. After enumerating all configuration combinations, the explorer
    outputs the first [K] regimes of the list of all enumerated regimes
    sorted by harm fraction [H/N] in descending order; that sorted list is a
    rearrangement of the enumerated regimes in which the regimes of any one
    harm fraction appear in their original enumeration order. *)
Theorem explore_top_K_by_harm
        (p_L_grid b_grid h_grid k_L_grid k_H_grid pi_G_grid pi_B_grid : list Q)
        (K : nat) (results : list (Regime.t Q)) :
  enumerate (G := G) N theta z_mean z_std t_grid
            p_L_grid b_grid h_grid k_L_grid k_H_grid pi_G_grid pi_B_grid = Ok results ->
  exists results_sorted,
    explore (G := G) N theta z_mean z_std t_grid
            p_L_grid b_grid h_grid k_L_grid k_H_grid pi_G_grid pi_B_grid K
    = Ok (firstn K results_sorted) /\
    Permutation results_sorted results /\
    StronglySorted (fun r r' => Regime.H_frac r' <= Regime.H_frac r) results_sorted /\
    (forall v,
       filter (fun r => Qeq_bool (Regime.H_frac r) v) results_sorted =
       filter (fun r => Qeq_bool (Regime.H_frac r) v) results) /\
    (forall v, exists rest,
       filter (fun r => Qeq_bool (Regime.H_frac r) v) results =
       filter (fun r => Qeq_bool (Regime.H_frac r) v) (firstn K results_sorted) ++ rest).
Proof.
intros E. exists (sorted (@Regime.H_frac Q) results true).
assert (St : forall v,
  filter (fun r => Qeq_bool (Regime.H_frac r) v) (sorted (@Regime.H_frac Q) results true) =
  filter (fun r => Qeq_bool (Regime.H_frac r) v) results).
{ intros v. apply sorted_stable. intros a a'. apply tie_class. }
split; [unfold explore; rewrite E; reflexivity|].
split; [apply sorted_perm|].
split; [apply sorted_reverse_descending|].
split; [exact St|].
intros v. rewrite <- St.
exists (filter (fun r => Qeq_bool (Regime.H_frac r) v)
               (skipn K (sorted (@Regime.H_frac Q) results true))).
rewrite <- filter_app, firstn_skipn. reflexivity.
Qed.
End Explorer.

Lemma explore_top_K_by_harm_witness :
  let t_grid := [-1 # 1; 0 # 1; 1 # 1]%Q in
  let h_grid := [1 # 2; 1 # 10]%Q in
  let pi_B_grid := [- (1 # 5); - (3 # 5)]%Q in
  exists results,
    enumerate (G := Z) 5 0%Q 0%Q 1%Q t_grid
              [(1 # 2)%Q] [1%Q] h_grid [(1 # 10)%Q] [(3 # 10)%Q] [(1 # 5)%Q] pi_B_grid
    = Ok results /\
    exists results_sorted,
      explore (G := Z) 5 0%Q 0%Q 1%Q t_grid
              [(1 # 2)%Q] [1%Q] h_grid [(1 # 10)%Q] [(3 # 10)%Q] [(1 # 5)%Q] pi_B_grid 3
      = Ok (firstn 3 results_sorted) /\
      Permutation results_sorted results /\
      StronglySorted (fun r r' => (Regime.H_frac r' <= Regime.H_frac r)%Q) results_sorted.
Proof.
intros t_grid h_grid pi_B_grid.
eexists. split; [vm_compute; reflexivity|].
match goal with |- context [Permutation _ ?res] =>
  assert (E : enumerate (G := Z) 5 0%Q 0%Q 1%Q t_grid
                [(1 # 2)%Q] [1%Q] h_grid [(1 # 10)%Q] [(3 # 10)%Q] [(1 # 5)%Q] pi_B_grid
              = Ok res) by (vm_compute; reflexivity)
end.
destruct (explore_top_K_by_harm _ _ _ _ _ _ _ _ _ _ _ _ 3 E) as (rs & Ex & P & S & _).
exists rs. split; [exact Ex|]. split; [exact P|exact S].
Defined.

(** * Further properties of the sources *)

(** ** The borrower (exact arithmetic) *)

Section BorrowerFacts.
Local Open Scope Q_scope.

Lemma square_le_of_abs_le (a a' : Q) : Qabs a <= Qabs a' -> a * a <= a' * a'.
Proof.
intros L.
assert (Ha : Qabs a * Qabs a == a * a).
{ rewrite <- Qabs_Qmult. apply Qabs_pos. nra. }
assert (Ha' : Qabs a' * Qabs a' == a' * a').
{ rewrite <- Qabs_Qmult. apply Qabs_pos. nra. }
rewrite <- Ha, <- Ha'.
pose proof (Qabs_nonneg a). pose proof (Qabs_nonneg a'). nra.
Qed.

(** [adjustment_cost]: with a non-negative cost coefficient the cost is never
    negative, is zero for no adjustment, and does not decrease when the
    adjustment grows in absolute value. *)
Theorem adjustment_cost_monotone (bw : Borrower Q) (a a' : Q) :
  0 <= k bw ->
  Qabs a <= Qabs a' ->
  adjustment_cost bw 0 == 0 /\
  0 <= adjustment_cost bw a /\
  adjustment_cost bw a <= adjustment_cost bw a'.
Proof.
intros Hk L. apply square_le_of_abs_le in L.
unfold adjustment_cost, fsquare. cbn [fmul Q_Scalar].
split; [ring|]. split; nra.
Qed.

Lemma adjustment_cost_monotone_witness :
  let bw := mkBorrower 0 (3 # 10) 0 1 (1 # 2) false in
  adjustment_cost bw (-1) <= adjustment_cost bw 2.
Proof.
intros bw.
assert (Hk : 0 <= k bw) by (cbn; lra).
assert (L : Qabs (-1) <= Qabs 2) by (cbn; lra).
exact (proj2 (proj2 (adjustment_cost_monotone bw (-1) 2 Hk L))).
Defined.

Lemma accepted_closed_form (bw : Borrower Q) (t : Q) :
  accepted bw t = true <->
  t <= z bw \/
  (z bw < t /\ spec_U_no bw <= b bw - k bw * (t - z bw) ^ 2).
Proof.
rewrite accepted_iff. split.
- intros A. destruct (Qlt_le_dec (z bw) t) as [L|L]; [|left; exact L].
  right. split; [exact L|].
  destruct (Qlt_le_dec (b bw - k bw * (t - z bw) ^ 2) (spec_U_no bw)) as [U|U];
    [|exact U].
  rewrite (best_response_declines bw L U) in A. exfalso. lra.
- intros [L|[L U]].
  + rewrite (best_response_above bw L). lra.
  + rewrite (best_response_adjusts bw L U). lra.
Qed.

(** A cheaper adjustment never hurts: of two borrowers that differ only in
    their cost coefficient, the one with the smaller coefficient is accepted
    wherever the other is. *)
Theorem acceptance_antitone_in_cost (bw bw' : Borrower Q) (t : Q) :
  z bw = z bw' -> theta bw = theta bw' -> b bw = b bw' -> h bw = h bw' ->
  k bw <= k bw' ->
  accepted bw' t = true ->
  accepted bw t = true.
Proof.
intros Ez Et Eb Eh Hk A.
apply accepted_closed_form in A. apply accepted_closed_form.
assert (EU : spec_U_no bw = spec_U_no bw').
{ unfold spec_U_no, spec_good. rewrite Ez, Et, Eh. reflexivity. }
rewrite Ez, Eb, EU.
destruct A as [L|[L U]]; [left; exact L|].
right. split; [exact L|].
assert (0 <= (t - z bw') ^ 2) by (simpl; nra).
assert (k bw * (t - z bw') ^ 2 <= k bw' * (t - z bw') ^ 2) by nra.
lra.
Qed.

Lemma acceptance_antitone_in_cost_witness :
  let bw := mkBorrower (-1) (1 # 10) 0 1 (1 # 2) true in
  let bw' := mkBorrower (-1) (3 # 10) 0 1 (1 # 2) false in
  accepted bw' 0 = true /\ accepted bw 0 = true.
Proof.
intros bw bw'.
assert (A : accepted bw' 0 = true) by reflexivity.
assert (Hk : k bw <= k bw') by (cbn; lra).
split; [exact A|].
exact (acceptance_antitone_in_cost bw bw' 0 eq_refl eq_refl eq_refl eq_refl Hk A).
Defined.
End BorrowerFacts.

(** ** The generated population *)

Section Population.
Context {F G : Type} `{Scalar F} `{Generator F G}.

(** Every borrower [reset_population] creates carries the environment's
    [theta], [b] and [h], and the cost coefficient of its group: [k_L] when
    tagged low-cost, [k_H] otherwise; the configuration itself is left
    untouched. *)
Theorem reset_population_borrowers (self : StrategicLendingEnv F G) (seed : option Z) :
  Forall (fun bw =>
            theta bw = environment.theta self /\
            b bw = environment.b self /\
            h bw = environment.h self /\
            k bw = if is_low_cost bw then k_L self else k_H self)
         (borrowers (reset_population self seed)) /\
  same_config self (reset_population self seed).
Proof.
unfold reset_population.
destruct (normal _ _ _ _) as [z_vals rng1].
destruct (uniform _ _) as [u_vals rng2].
cbn [borrowers]. split; [|repeat split].
apply Forall_forall. intros bw I.
apply in_map_iff in I as ([zv low] & <- & _). cbn. repeat split.
Qed.

Lemma population_from_draws (self : StrategicLendingEnv F G) (seed : option Z) :
  draws_as_asked F G ->
  let '(z_vals, rng1) :=
    normal (first_rng self seed) (z_mean self) (z_std self) (environment.N self) in
  let '(u_vals, rng2) := uniform (F := F) rng1 (environment.N self) in
  let self' := reset_population self seed in
  length (borrowers self') = environment.N self /\
  map (@z F) (borrowers self') = z_vals /\
  map (@is_low_cost F) (borrowers self') = map (fun u => flt u (p_L self)) u_vals /\
  rng self' = rng2.
Proof.
intros [Dn Du]. unfold reset_population, first_rng.
pose proof (Dn (match seed with Some s => default_rng s | None => rng self end)
               (z_mean self) (z_std self) (environment.N self)) as Ln.
destruct (normal _ _ _ _) as [z_vals rng1]. cbn [fst] in Ln.
pose proof (Du rng1 (environment.N self)) as Lu.
destruct (uniform _ _) as [u_vals rng2]. cbn [fst] in Lu.
cbn [borrowers rng].
assert (Lc : length z_vals = length (map (fun u => flt u (p_L self)) u_vals))
  by (rewrite length_map; congruence).
revert Lc. generalize (map (fun u => flt u (p_L self)) u_vals) as tags.
intros tags Lc.
split; [rewrite length_map, length_combine, <- Lc, Nat.min_id; exact Ln|].
split; [|split; [|reflexivity]].
- rewrite map_map. clear Ln. revert tags Lc.
  induction z_vals as [|zv z_vals IH]; intros [|tg tags] Lc; try discriminate Lc;
    [reflexivity|].
  cbn. f_equal. apply IH. cbn in Lc. congruence.
- rewrite map_map. clear Ln. revert tags Lc.
  induction z_vals as [|zv z_vals IH]; intros [|tg tags] Lc; try discriminate Lc;
    [reflexivity|].
  cbn. f_equal. apply IH. cbn in Lc. congruence.
Qed.

Lemma population_size (self : StrategicLendingEnv F G) (seed : option Z) :
  draws_as_asked F G ->
  length (borrowers (reset_population self seed)) = environment.N self.
Proof.
intros D. pose proof (population_from_draws self seed D) as P.
destruct (normal _ _ _ _) as [z_vals rng1] in P.
destruct (uniform _ _) as [u_vals rng2] in P.
exact (proj1 P).
Qed.

(** With a generator that returns as many samples as asked for, the
    population has exactly [N] borrowers, their [z] are the normal draws in
    order, and their group tags are the uniform draws compared with [p_L]. *)
Theorem reset_population_draws (self : StrategicLendingEnv F G) (seed : option Z) :
  draws_as_asked F G ->
  let '(z_vals, rng1) :=
    normal (first_rng self seed) (z_mean self) (z_std self) (environment.N self) in
  let '(u_vals, rng2) := uniform (F := F) rng1 (environment.N self) in
  let self' := reset_population self seed in
  length (borrowers self') = environment.N self /\
  map (@z F) (borrowers self') = z_vals /\
  map (@is_low_cost F) (borrowers self') = map (fun u => flt u (p_L self)) u_vals /\
  rng self' = rng2.
Proof. exact (population_from_draws self seed). Qed.
End Population.

Lemma lcg_draws_length (F : Type) (f : Z -> F) (n : nat) (x : Z) :
  length (fst (lcg_draws f n x)) = n.
Proof.
revert x. induction n as [|n IH]; intros x; [reflexivity|].
cbn [lcg_draws]. specialize (IH (lcg_next x)).
destruct (lcg_draws f n (lcg_next x)) as [l x']. cbn in *. congruence.
Qed.

Lemma toy_draws_as_asked (F : Type) `{Scalar F} : draws_as_asked F Z.
Proof.
split; intros; apply lcg_draws_length.
Qed.

Lemma reset_population_draws_witness :
  length (borrowers (reset_population sample_env (Some 7%Z))) = 5.
Proof.
pose proof (reset_population_draws sample_env (Some 7%Z) (@toy_draws_as_asked Q _)) as P.
destruct (normal _ _ _ _) as [z_vals rng1] in P.
destruct (uniform _ _) as [u_vals rng2] in P.
exact (proj1 P).
Defined.

(** ** The counters of [evaluate_threshold] *)

Section Counters.
Context {F G : Type} `{Scalar F} `{Generator F G}.
Variable self : StrategicLendingEnv F G.
Variable t : F.

Lemma step_acc_L (v : Locals.t F) (bw : Borrower F) :
  Locals.acc_L (evaluate_step self t v bw) =
  if is_low_cost bw && accepted bw t then S (Locals.acc_L v) else Locals.acc_L v.
Proof.
unfold evaluate_step. fold (reported_score bw t). fold (accepted bw t).
destruct (is_low_cost bw), (accepted bw t); reflexivity.
Qed.

Lemma step_acc_H (v : Locals.t F) (bw : Borrower F) :
  Locals.acc_H (evaluate_step self t v bw) =
  if negb (is_low_cost bw) && accepted bw t then S (Locals.acc_H v) else Locals.acc_H v.
Proof.
unfold evaluate_step. fold (reported_score bw t). fold (accepted bw t).
destruct (is_low_cost bw), (accepted bw t); reflexivity.
Qed.

Lemma loop_counters (bs : list (Borrower F)) (v : Locals.t F) :
  let v' := fold_left (evaluate_step self t) bs v in
  Locals.n_L v' = Locals.n_L v + length (filter (@is_low_cost F) bs) /\
  Locals.n_H v' = Locals.n_H v + length (filter (fun bw => negb (is_low_cost bw)) bs) /\
  Locals.acc_L v' =
    Locals.acc_L v + length (filter (fun bw => is_low_cost bw && accepted bw t) bs) /\
  Locals.acc_H v' =
    Locals.acc_H v + length (filter (fun bw => negb (is_low_cost bw) && accepted bw t) bs) /\
  Locals.H v' =
    Locals.H v + length (filter (fun bw => negb (accepted bw t) && is_good bw) bs).
Proof.
revert v. induction bs as [|bw bs IH]; intros v; cbn [fold_left filter].
- cbn. repeat split; lia.
- destruct (IH (evaluate_step self t v bw)) as (E1 & E2 & E3 & E4 & E5).
  cbv zeta. rewrite E1, E2, E3, E4, E5.
  rewrite step_n_L, step_n_H, step_acc_L, step_acc_H, step_H.
  destruct (is_low_cost bw), (accepted bw t), (is_good bw); cbn; repeat split; lia.
Qed.

Lemma filter_length_and (A : Type) (p q : A -> bool) (l : list A) :
  length (filter (fun x => p x && q x) l) <= length (filter p l).
Proof.
induction l as [|x l IH]; [reflexivity|]. cbn.
destruct (p x), (q x); cbn; lia.
Qed.

Lemma filter_length_split (A : Type) (p : A -> bool) (l : list A) :
  length (filter p l) + length (filter (fun x => negb (p x)) l) = length l.
Proof.
induction l as [|x l IH]; [reflexivity|]. cbn.
destruct (p x); cbn; lia.
Qed.

Lemma counters_after_loop :
  let v := evaluate_loop self t in
  Locals.n_L v + Locals.n_H v = length (borrowers self) /\
  Locals.n_L v = length (filter (@is_low_cost F) (borrowers self)) /\
  Locals.acc_L v <= Locals.n_L v /\
  Locals.acc_H v <= Locals.n_H v /\
  Locals.H v + Locals.acc_L v + Locals.acc_H v <= length (borrowers self).
Proof.
unfold evaluate_loop.
destruct (loop_counters (borrowers self) evaluate_init) as (E1 & E2 & E3 & E4 & E5).
cbv zeta. rewrite E1, E2, E3, E4, E5. cbn [evaluate_init Locals.n_L Locals.n_H
  Locals.acc_L Locals.acc_H Locals.H Nat.add].
pose proof (filter_length_split (@is_low_cost F) (borrowers self)) as S.
pose proof (filter_length_and (@is_low_cost F) (fun bw => accepted bw t) (borrowers self)) as A1.
pose proof (filter_length_and (fun bw => negb (is_low_cost bw)) (fun bw => accepted bw t)
                              (borrowers self)) as A2.
split; [exact S|]. split; [reflexivity|]. split; [exact A1|]. split; [exact A2|].
clear. induction (borrowers self) as [|bw bs IH]; [reflexivity|]. cbn.
destruct (is_low_cost bw), (accepted bw t), (is_good bw); cbn; lia.
Qed.

(** After the loop of [evaluate_threshold] the two group counts add up to
    the population size, each group's acceptance count is at most its size,
    and the harm count plus the two acceptance counts is at most the
    population size (a borrower is accepted or harmed, never both). *)
Theorem evaluate_counters :
  let v := evaluate_loop self t in
  Locals.n_L v + Locals.n_H v = length (borrowers self) /\
  Locals.n_L v = length (filter (@is_low_cost F) (borrowers self)) /\
  Locals.acc_L v <= Locals.n_L v /\
  Locals.acc_H v <= Locals.n_H v /\
  Locals.H v + Locals.acc_L v + Locals.acc_H v <= length (borrowers self).
Proof. exact counters_after_loop. Qed.
End Counters.

(** ** The group statistics (exact arithmetic) *)

Section GroupStatistics.
Local Open Scope Q_scope.
Context {G : Type} `{Generator Q G}.
Variable self : StrategicLendingEnv Q G.
Variables t lam : Q.

Lemma rate_in_unit_interval (a n : nat) :
  (a <= n)%nat ->
  0 <= (if (0 <? n)%nat then fdiv (of_count a) (of_count n) else f0) <= 1.
Proof.
intros L. destruct (0 <? n)%nat eqn:P; cbn [fdiv of_count f0 Q_Scalar]; [|lra].
apply Nat.ltb_lt in P.
assert (Hn : 0 < inject_Z (Z.of_nat n)).
{ change 0 with (inject_Z 0). rewrite <- Zlt_Qlt. lia. }
assert (Ha : 0 <= inject_Z (Z.of_nat a)).
{ change 0 with (inject_Z 0). rewrite <- Zle_Qle. lia. }
assert (Han : inject_Z (Z.of_nat a) <= inject_Z (Z.of_nat n)).
{ rewrite <- Zle_Qle. lia. }
split.
- apply Qle_shift_div_l; [exact Hn|]. lra.
- apply Qle_shift_div_r; [exact Hn|]. lra.
Qed.

(** Both acceptance rates returned by [evaluate_threshold] lie between 0
    and 1, whatever the population, threshold and penalty. *)
Theorem acceptance_rates_in_unit_interval :
  let stats := snd (evaluate_threshold self t lam) in
  0 <= Stats.acc_L stats <= 1 /\ 0 <= Stats.acc_H stats <= 1.
Proof.
destruct (counters_after_loop self t) as (_ & _ & A1 & A2 & _).
unfold evaluate_threshold. cbn [snd Stats.acc_L Stats.acc_H].
split; apply rate_in_unit_interval; assumption.
Qed.

Lemma step_cost_L (v : Locals.t Q) (bw : Borrower Q) :
  Locals.cost_L (evaluate_step self t v bw) =
  if is_low_cost bw
  then Locals.cost_L v + adjustment_cost bw (best_response bw t)
  else Locals.cost_L v.
Proof. unfold evaluate_step. destruct (is_low_cost bw); reflexivity. Qed.

Lemma step_cost_H (v : Locals.t Q) (bw : Borrower Q) :
  Locals.cost_H (evaluate_step self t v bw) =
  if is_low_cost bw
  then Locals.cost_H v
  else Locals.cost_H v + adjustment_cost bw (best_response bw t).
Proof. unfold evaluate_step. destruct (is_low_cost bw); reflexivity. Qed.

Lemma cost_nonneg (bw : Borrower Q) (a : Q) : 0 <= k bw -> 0 <= adjustment_cost bw a.
Proof.
intros Hk. unfold adjustment_cost, fsquare. cbn [fmul Q_Scalar]. nra.
Qed.

Lemma loop_costs_nonneg (bs : list (Borrower Q)) (v : Locals.t Q) :
  Forall (fun bw => 0 <= k bw) bs ->
  0 <= Locals.cost_L v -> 0 <= Locals.cost_H v ->
  0 <= Locals.cost_L (fold_left (evaluate_step self t) bs v) /\
  0 <= Locals.cost_H (fold_left (evaluate_step self t) bs v).
Proof.
intros Hk. revert v. induction Hk as [|bw bs Hbw Hbs IH]; intros v HL HH;
  cbn [fold_left]; [split; assumption|].
pose proof (cost_nonneg bw (best_response bw t) Hbw) as C.
apply IH; [rewrite step_cost_L|rewrite step_cost_H]; destruct (is_low_cost bw); lra.
Qed.

Lemma average_nonneg (c : Q) (n : nat) :
  0 <= c -> 0 <= (if (0 <? n)%nat then fdiv c (of_count n) else f0).
Proof.
intros Hc. destruct (0 <? n)%nat eqn:P; cbn [fdiv of_count f0 Q_Scalar]; [|lra].
apply Nat.ltb_lt in P.
apply Qle_shift_div_l; [|lra].
change 0 with (inject_Z 0). rewrite <- Zlt_Qlt. lia.
Qed.

(** When no borrower has a negative cost coefficient, both average
    adjustment costs returned by [evaluate_threshold] are non-negative. *)
Theorem average_costs_nonneg :
  Forall (fun bw => 0 <= k bw) (borrowers self) ->
  let stats := snd (evaluate_threshold self t lam) in
  0 <= Stats.avg_cost_L stats /\ 0 <= Stats.avg_cost_H stats.
Proof.
intros Hk.
destruct (loop_costs_nonneg evaluate_init Hk) as [CL CH]; [cbn; lra|cbn; lra|].
unfold evaluate_threshold. cbn [snd Stats.avg_cost_L Stats.avg_cost_H].
split; apply average_nonneg; assumption.
Qed.
End GroupStatistics.

Lemma average_costs_nonneg_witness :
  Forall (fun bw => (0 <= k bw)%Q) (borrowers sample_env) /\
  (0 <= Stats.avg_cost_L (snd (evaluate_threshold sample_env (1 # 2)%Q 0%Q)))%Q.
Proof.
assert (Hk : Forall (fun bw => (0 <= k bw)%Q) (borrowers sample_env)).
{ repeat constructor; cbn; discriminate. }
split; [exact Hk|].
exact (proj1 (average_costs_nonneg sample_env (1 # 2)%Q 0%Q Hk)).
Defined.

(** ** Profit, harm and the penalty (exact arithmetic) *)

Section ProfitAndHarm.
Local Open Scope Q_scope.
Context {G : Type} `{Generator Q G}.
Variable self : StrategicLendingEnv Q G.

(** The statistics do not depend on the penalty. *)
Lemma stats_penalty_free (t lam lam' : Q) :
  snd (evaluate_threshold self t lam) = snd (evaluate_threshold self t lam').
Proof. reflexivity. Qed.

Lemma objective_decomposition (lam t : Q) :
  objective self lam t == profit self t - lam * inject_Z (Z.of_nat (harm self t)).
Proof. reflexivity. Qed.

Lemma first_maximiser_in (lam : Q) (t_grid : list Q) (ts : Q) :
  first_maximiser self lam t_grid ts -> In ts t_grid.
Proof.
intros (pre & post & -> & _). apply in_or_app. right. left. reflexivity.
Qed.

Lemma first_maximiser_max (lam : Q) (t_grid : list Q) (ts : Q) :
  first_maximiser self lam t_grid ts ->
  forall t, In t t_grid -> objective self lam t <= objective self lam ts.
Proof.
intros (pre & post & -> & Hpre & Hpost) t I.
apply in_app_or in I as [I|[<-|I]].
- apply Qlt_le_weak, Hpre, I.
- apply Qle_refl.
- apply Hpost, I.
Qed.

(** The first maximiser of a grid is unique, and it only depends on the
    objective up to equality of rationals. *)
Lemma first_maximiser_unique (lam lam' : Q) (t_grid : list Q) (ts ts' : Q) :
  (forall t, objective self lam t == objective self lam' t) ->
  first_maximiser self lam t_grid ts ->
  first_maximiser self lam' t_grid ts' ->
  ts = ts'.
Proof.
intros Eo (pre & post & E & Hpre & Hpost) (pre' & post' & E' & Hpre' & Hpost').
rewrite E in E'. clear E. revert pre' E' Hpre Hpre'.
induction pre as [|x pre IH]; intros [|x' pre'] E' Hpre Hpre'; cbn in E'.
- congruence.
- injection E' as E1 E2. subst x'.
  assert (I : In ts' post) by (rewrite E2; apply in_or_app; right; left; reflexivity).
  apply Hpost in I. specialize (Hpre' ts (or_introl eq_refl)).
  rewrite <- !Eo in Hpre'. exfalso. apply (Qlt_not_le _ _ Hpre' I).
- injection E' as E1 E2. subst x.
  assert (I : In ts post') by (rewrite <- E2; apply in_or_app; right; left; reflexivity).
  apply Hpost' in I. specialize (Hpre ts' (or_introl eq_refl)).
  rewrite <- !Eo in I. exfalso. apply (Qlt_not_le _ _ Hpre I).
- injection E' as E1 E2.
  apply (IH pre' E2).
  + intros t I. apply Hpre. right. exact I.
  + intros t I. apply Hpre'. right. exact I.
Qed.

(** Between the optima of two penalties, the larger penalty has no more
    harm. *)
Lemma optimum_harm_antitone (lam lam' : Q) (t_grid : list Q) (ts ts' : Q) :
  lam <= lam' ->
  first_maximiser self lam t_grid ts ->
  first_maximiser self lam' t_grid ts' ->
  (harm self ts' <= harm self ts)%nat.
Proof.
intros L M M'.
destruct (Qlt_le_dec lam lam') as [S|S].
- pose proof (first_maximiser_max M ts' (first_maximiser_in M')) as O.
  pose proof (first_maximiser_max M' ts (first_maximiser_in M)) as O'.
  rewrite !objective_decomposition in O, O'.
  apply Nat.le_ngt. intros C.
  assert (C' : inject_Z (Z.of_nat (harm self ts)) + 1 <= inject_Z (Z.of_nat (harm self ts'))).
  { change 1 with (inject_Z 1). rewrite <- inject_Z_plus, <- Zle_Qle. lia. }
  nra.
- assert (E : lam == lam') by (apply Qle_antisym; assumption).
  assert (Eo : forall t, objective self lam t == objective self lam' t).
  { intros t. rewrite !objective_decomposition, E. reflexivity. }
  rewrite (first_maximiser_unique Eo M M'). reflexivity.
Qed.

(** With a non-negative penalty, the optimum of the larger penalty earns no
    more profit either. *)
Lemma optimum_profit_antitone (lam lam' : Q) (t_grid : list Q) (ts ts' : Q) :
  0 <= lam -> lam <= lam' ->
  first_maximiser self lam t_grid ts ->
  first_maximiser self lam' t_grid ts' ->
  profit self ts' <= profit self ts.
Proof.
intros P L M M'.
pose proof (optimum_harm_antitone L M M') as Hh.
pose proof (first_maximiser_max M ts' (first_maximiser_in M')) as O.
rewrite !objective_decomposition in O.
assert (Hq : inject_Z (Z.of_nat (harm self ts')) <= inject_Z (Z.of_nat (harm self ts))).
{ rewrite <- Zle_Qle. lia. }
nra.
Qed.

Lemma row_harm (t_grid : list Q) (r : SweepRow.t Q) :
  row_correct self t_grid r ->
  SweepRow.H r = harm self (SweepRow.t_star r) /\
  SweepRow.Pi r = profit self (SweepRow.t_star r).
Proof.
intros [_ E]. unfold harm, profit.
rewrite (stats_penalty_free (SweepRow.t_star r) f0 (SweepRow.lambda r)), <- E.
split; reflexivity.
Qed.

End ProfitAndHarm.


(** ** The unregulated optimum *)

Section UnregulatedOptimum.
Context {F G : Type} `{Scalar F} `{Generator F G}.

End UnregulatedOptimum.

Section UnregulatedOptimumExact.
Local Open Scope Q_scope.
Context {G : Type} `{Generator Q G}.

Lemma objective_unregulated (self : StrategicLendingEnv Q G) (t : Q) :
  objective self 0 t == profit self t.
Proof. rewrite objective_decomposition. ring. Qed.

(** On a non-empty grid [find_unregulated_optimum] returns the threshold of
    greatest raw profit [Pi], harm playing no part, and among equally
    profitable thresholds the earliest of the grid, together with the
    statistics evaluated there. *)
Theorem find_unregulated_optimum_maximises_profit (params : Params.t Q) (t_grid : list Q) :
  t_grid <> [] ->
  let env := make_env (G := G) params in
  exists ts pre post,
    find_unregulated_optimum (G := G) params t_grid =
      (Some ts, Some (snd (evaluate_threshold env ts 0))) /\
    t_grid = pre ++ ts :: post /\
    (forall t, In t pre -> profit env t < profit env ts) /\
    (forall t, In t post -> profit env t <= profit env ts).
Proof.
intros NE env. unfold find_unregulated_optimum. fold env.
pose proof (scan_retained env f0 t_grid) as R.
destruct (scan_nonempty env f0 NE) as [bst E]. rewrite E in *.
destruct R as ((pre & post & Eg & Hpre & Hpost) & _ & Es).
exists (Best.best_t bst), pre, post. rewrite Es.
split; [reflexivity|]. split; [exact Eg|]. split.
- intros t I. rewrite <- !objective_unregulated. apply Hpre, I.
- intros t I. rewrite <- !objective_unregulated. apply Hpost, I.
Qed.
End UnregulatedOptimumExact.

Lemma find_unregulated_optimum_maximises_profit_witness :
  let params := Params.mk 5 (1 # 2)%Q 0%Q 1%Q (1 # 2)%Q (1 # 10)%Q (3 # 10)%Q (1 # 5)%Q
                          (- (1 # 5))%Q 0%Q 1%Q 0%Z in
  let t_grid := [-3 # 1; -1 # 1; 1 # 2; 1 # 1; 3 # 1]%Q in
  t_grid <> [] /\
  exists ts, fst (find_unregulated_optimum (G := Z) params t_grid) = Some ts.
Proof.
intros params t_grid.
assert (NE : t_grid <> []) by discriminate.
split; [exact NE|].
destruct (find_unregulated_optimum_maximises_profit (G := Z) params NE)
  as (ts & pre & post & E & _).
exists ts. rewrite E. reflexivity.
Defined.

(** ** The order of the population (exact arithmetic) *)

Section PopulationOrder.
Local Open Scope Q_scope.
Context {G : Type} `{Generator Q G}.

Lemma Qsum_app (l l' : list Q) : Qsum (l ++ l') == Qsum l + Qsum l'.
Proof.
induction l as [|x l IH]; cbn [Qsum app]; [ring|]. rewrite IH. ring.
Qed.

Lemma Qsum_perm (l l' : list Q) : Permutation l l' -> Qsum l == Qsum l'.
Proof.
induction 1 as [|x l l' P IH|x y l|l l' l'' P IH P' IH']; cbn [Qsum].
- reflexivity.
- rewrite IH. reflexivity.
- ring.
- rewrite IH. exact IH'.
Qed.

Lemma filter_perm (A : Type) (p : A -> bool) (l l' : list A) :
  Permutation l l' -> Permutation (filter p l) (filter p l').
Proof.
induction 1 as [|x l l' P IH|x y l|l l' l'' P IH P' IH']; cbn [filter].
- constructor.
- destruct (p x); [constructor|]; exact IH.
- destruct (p x), (p y); try reflexivity. apply perm_swap.
- eapply perm_trans; eassumption.
Qed.

Lemma loop_cost_L_spec (self : StrategicLendingEnv Q G) (t : Q)
      (bs : list (Borrower Q)) (v : Locals.t Q) :
  Locals.cost_L (fold_left (evaluate_step self t) bs v) ==
  Locals.cost_L v +
  Qsum (map (fun bw => adjustment_cost bw (best_response bw t))
            (filter (@is_low_cost Q) bs)).
Proof.
revert v. induction bs as [|bw bs IH]; intros v; cbn [fold_left filter].
- cbn. ring.
- rewrite IH, step_cost_L. destruct (is_low_cost bw); cbn [map Qsum]; ring.
Qed.

Lemma loop_cost_H_spec (self : StrategicLendingEnv Q G) (t : Q)
      (bs : list (Borrower Q)) (v : Locals.t Q) :
  Locals.cost_H (fold_left (evaluate_step self t) bs v) ==
  Locals.cost_H v +
  Qsum (map (fun bw => adjustment_cost bw (best_response bw t))
            (filter (fun bw => negb (is_low_cost bw)) bs)).
Proof.
revert v. induction bs as [|bw bs IH]; intros v; cbn [fold_left filter].
- cbn. ring.
- rewrite IH, step_cost_H. destruct (is_low_cost bw); cbn [map Qsum negb]; ring.
Qed.

(** In exact arithmetic the order of the borrowers does not matter: two
    environments with the same per-loan profits whose populations are
    rearrangements of one another get the same objective and the same
    statistics at every threshold and penalty. *)
Theorem evaluate_threshold_order_free (self self' : StrategicLendingEnv Q G) (t lam : Q) :
  pi_G self = pi_G self' -> pi_B self = pi_B self' ->
  Permutation (borrowers self) (borrowers self') ->
  let '(obj, stats) := evaluate_threshold self t lam in
  let '(obj', stats') := evaluate_threshold self' t lam in
  obj == obj' /\
  Stats.Pi stats == Stats.Pi stats' /\
  Stats.H stats = Stats.H stats' /\
  Stats.acc_L stats = Stats.acc_L stats' /\
  Stats.acc_H stats = Stats.acc_H stats' /\
  Stats.avg_cost_L stats == Stats.avg_cost_L stats' /\
  Stats.avg_cost_H stats == Stats.avg_cost_H stats'.
Proof.
intros EG EB P. unfold evaluate_threshold, evaluate_loop.
cbn [Stats.Pi Stats.H Stats.acc_L Stats.acc_H Stats.avg_cost_L Stats.avg_cost_H].
destruct (loop_counters self t (borrowers self) evaluate_init) as (N1 & N2 & A1 & A2 & H1).
destruct (loop_counters self' t (borrowers self') evaluate_init) as (N1' & N2' & A1' & A2' & H1').
cbv zeta in *.
pose proof (loop_Pi_spec self t (borrowers self) evaluate_init) as P1.
pose proof (loop_Pi_spec self' t (borrowers self') evaluate_init) as P1'.
pose proof (loop_cost_L_spec self t (borrowers self) evaluate_init) as CL.
pose proof (loop_cost_L_spec self' t (borrowers self') evaluate_init) as CL'.
pose proof (loop_cost_H_spec self t (borrowers self) evaluate_init) as CH.
pose proof (loop_cost_H_spec self' t (borrowers self') evaluate_init) as CH'.
assert (FL : forall p : Borrower Q -> bool,
          length (filter p (borrowers self)) = length (filter p (borrowers self')))
  by (intros p; apply Permutation_length, filter_perm, P).
assert (FS : forall (p : Borrower Q -> bool) (f : Borrower Q -> Q),
          Qsum (map f (filter p (borrowers self))) ==
          Qsum (map f (filter p (borrowers self'))))
  by (intros p f; apply Qsum_perm, Permutation_map, filter_perm, P).
assert (EP : Qsum (map (spec_profit self t) (borrowers self)) ==
             Qsum (map (spec_profit self' t) (borrowers self'))).
{ rewrite (Qsum_perm (Permutation_map (spec_profit self t) P)).
  replace (map (spec_profit self t) (borrowers self'))
    with (map (spec_profit self' t) (borrowers self')); [reflexivity|].
  apply map_ext. intros bw. unfold spec_profit. rewrite EG, EB. reflexivity. }
rewrite (FL _) in N1. rewrite (FL _) in N2. rewrite (FL _) in A1.
rewrite (FL _) in A2. rewrite (FL _) in H1.
rewrite (FS _ _) in CL. rewrite (FS _ _) in CH. rewrite EP in P1.
rewrite <- N1' in N1. rewrite <- N2' in N2. rewrite <- A1' in A1.
rewrite <- A2' in A2. rewrite <- H1' in H1.
rewrite <- P1' in P1. rewrite <- CL' in CL. rewrite <- CH' in CH.
rewrite N1, N2, A1, A2, H1.
cbn [fsub fmul fdiv Q_Scalar].
repeat split; try reflexivity.
- rewrite P1. reflexivity.
- exact P1.
- destruct (0 <? _)%nat; [rewrite CL|]; reflexivity.
- destruct (0 <? _)%nat; [rewrite CH|]; reflexivity.
Qed.
End PopulationOrder.

Lemma evaluate_threshold_order_free_witness :
  let self := tradeoff_env in
  let self' := env_of (1 # 5)%Q (- (1 # 1))%Q (rev (borrowers tradeoff_env)) in
  Permutation (borrowers self) (borrowers self') /\
  (fst (evaluate_threshold self 0%Q (1 # 2)%Q) ==
   fst (evaluate_threshold self' 0%Q (1 # 2)%Q))%Q.
Proof.
intros self self'.
assert (P : Permutation (borrowers self) (borrowers self')) by apply Permutation_rev.
split; [exact P|].
pose proof (evaluate_threshold_order_free self self' 0%Q (1 # 2)%Q eq_refl eq_refl P) as T.
destruct (evaluate_threshold self 0%Q (1 # 2)%Q) as [obj stats].
destruct (evaluate_threshold self' 0%Q (1 # 2)%Q) as [obj' stats'].
exact (proj1 T).
Defined.

(** ** The enumeration of the explorer *)

(** A loop whose body appends [g x] appends them all, in order. *)
Lemma for_each_flat_map (A B : Type) (body : list B -> A -> result (list B))
      (g : A -> list B) (xs : list A) :
  (forall acc x, In x xs -> body acc x = Ok (acc ++ g x)) ->
  forall acc, for_each body xs acc = Ok (acc ++ flat_map g xs).
Proof.
induction xs as [|x xs IH]; intros Hb acc; cbn [for_each flat_map].
- rewrite app_nil_r. reflexivity.
- rewrite (Hb acc x (or_introl eq_refl)). cbn [bind].
  rewrite IH, app_assoc; [reflexivity|].
  intros acc' x' I. apply Hb. right. exact I.
Qed.

(** A loop that raises at its first element raises. *)
Lemma for_each_raises (A S : Type) (body : S -> A -> result S) (e : exn)
      (x : A) (xs : list A) (acc : S) :
  body acc x = Raise e -> for_each body (x :: xs) acc = Raise e.
Proof. intros E. cbn [for_each]. rewrite E. reflexivity. Qed.

Lemma flat_map_length_const (A B : Type) (f : A -> list B) (n : nat) (l : list A) :
  (forall x, length (f x) = n) -> length (flat_map f l) = length l * n.
Proof.
intros Hf. induction l as [|x l IH]; [reflexivity|].
cbn [flat_map length]. rewrite length_app, Hf, IH. cbn. lia.
Qed.

Lemma combinations_length (F : Type)
      (p_L_grid b_grid h_grid k_L_grid k_H_grid pi_G_grid pi_B_grid : list F) :
  length (combinations p_L_grid b_grid h_grid k_L_grid k_H_grid pi_G_grid pi_B_grid) =
  length p_L_grid * (length b_grid * (length h_grid * (length k_L_grid *
  (length k_H_grid * (length pi_G_grid * length pi_B_grid))))).
Proof.
unfold combinations.
repeat (apply flat_map_length_const; intros ?).
apply length_map.
Qed.

Section Enumeration.
Context {F G : Type} `{Scalar F} `{Generator F G}.
Variable N : nat.
Variables theta z_mean z_std : F.
Variable t_grid : list F.

Lemma regime_of_params (p_L b h k_L k_H pi_G pi_B : F) (r : Regime.t F) :
  regime_of (G := G) N theta z_mean z_std t_grid p_L b h k_L k_H pi_G pi_B = Ok r ->
  regime_params r = (p_L, b, h, k_L, k_H, pi_G, pi_B).
Proof.
unfold regime_of.
destruct (find_unregulated_optimum _ _) as [[ts|] [stats|]]; try discriminate.
destruct (N =? 0); [discriminate|].
intros E. injection E as <-. reflexivity.
Qed.

(** When no combination raises, the enumeration appends one regime per
    combination, in loop order. *)
Lemma enumerate_all_ok
      (p_L_grid b_grid h_grid k_L_grid k_H_grid pi_G_grid pi_B_grid : list F) :
  (forall p_L b h k_L k_H pi_G pi_B,
     In p_L p_L_grid -> In b b_grid -> In h h_grid -> In k_L k_L_grid ->
     In k_H k_H_grid -> In pi_G pi_G_grid -> In pi_B pi_B_grid ->
     exists r,
       regime_of (G := G) N theta z_mean z_std t_grid p_L b h k_L k_H pi_G pi_B = Ok r) ->
  exists results,
    enumerate (G := G) N theta z_mean z_std t_grid
              p_L_grid b_grid h_grid k_L_grid k_H_grid pi_G_grid pi_B_grid = Ok results /\
    map regime_params results =
      combinations p_L_grid b_grid h_grid k_L_grid k_H_grid pi_G_grid pi_B_grid.
Proof.
intros Hok. unfold enumerate, combinations.
assert (Lift : forall (A : Type) (f : A -> list (Regime.t F))
                      (g : A -> list (F * F * F * F * F * F * F)) (l : list A),
          (forall x, In x l -> map regime_params (f x) = g x) ->
          map regime_params (flat_map f l) = flat_map g l).
{ intros A f g l Hfg. induction l as [|x l IH]; [reflexivity|].
  cbn [flat_map]. rewrite map_app, Hfg, IH; [reflexivity| |left; reflexivity].
  intros x' I. apply Hfg. right. exact I. }
eexists. split.
- rewrite (for_each_flat_map _ (fun p_L =>
    flat_map (fun b => flat_map (fun h => flat_map (fun k_L => flat_map (fun k_H =>
    flat_map (fun pi_G => flat_map (fun pi_B =>
      appended (G := G) N theta z_mean z_std t_grid (p_L, b, h, k_L, k_H, pi_G, pi_B))
    pi_B_grid) pi_G_grid) k_H_grid) k_L_grid) h_grid) b_grid)); [reflexivity|].
  intros acc p_L I1. apply for_each_flat_map.
  intros acc1 b I2. apply for_each_flat_map.
  intros acc2 h I3. apply for_each_flat_map.
  intros acc3 k_L I4. apply for_each_flat_map.
  intros acc4 k_H I5. apply for_each_flat_map.
  intros acc5 pi_G I6. apply for_each_flat_map.
  intros acc6 pi_B I7. unfold appended.
  destruct (Hok p_L b h k_L k_H pi_G pi_B I1 I2 I3 I4 I5 I6 I7) as [r E].
  rewrite E. reflexivity.
- cbn [app].
  apply Lift; intros p_L I1. apply Lift; intros b I2. apply Lift; intros h I3.
  apply Lift; intros k_L I4. apply Lift; intros k_H I5. apply Lift; intros pi_G I6.
  assert (Inner : forall l, incl l pi_B_grid ->
            map regime_params
                (flat_map (fun pi_B =>
                   appended (G := G) N theta z_mean z_std t_grid
                            (p_L, b, h, k_L, k_H, pi_G, pi_B)) l) =
            map (fun pi_B => (p_L, b, h, k_L, k_H, pi_G, pi_B)) l).
  { induction l as [|pi_B l IH]; intros Hl; [reflexivity|].
    cbn [flat_map map]. rewrite map_app, IH;
      [|intros x I; apply Hl; right; exact I].
    unfold appended at 1.
    destruct (Hok p_L b h k_L k_H pi_G pi_B I1 I2 I3 I4 I5 I6
                  (Hl pi_B (or_introl eq_refl))) as [r E].
    rewrite E. cbn [map app]. rewrite (regime_of_params _ _ _ _ _ _ _ E). reflexivity. }
  apply Inner, incl_refl.
Qed.

(** An empty threshold grid with all seven parameter grids non-empty: the
    first combination finds no optimum and [stats["H"]] raises. *)
Lemma enumerate_empty_t_grid (p_L b h k_L k_H pi_G pi_B : F)
      (p_L_grid b_grid h_grid k_L_grid k_H_grid pi_G_grid pi_B_grid : list F) :
  t_grid = [] ->
  enumerate (G := G) N theta z_mean z_std t_grid
            (p_L :: p_L_grid) (b :: b_grid) (h :: h_grid) (k_L :: k_L_grid)
            (k_H :: k_H_grid) (pi_G :: pi_G_grid) (pi_B :: pi_B_grid) = Raise TypeError.
Proof.
intros E. unfold enumerate.
do 7 (apply for_each_raises). unfold regime_of, find_unregulated_optimum.
rewrite E. reflexivity.
Qed.
End Enumeration.

Section EnumerationRaises.
Context {F G : Type} `{Scalar F} `{Generator F G}.

(** With an empty threshold grid and no parameter grid empty, the explorer
    raises [TypeError] at its first combination: there is no optimum whose
    statistics could be read. *)
Theorem explore_empty_threshold_grid (N : nat) (theta z_mean z_std : F)
        (p_L b h k_L k_H pi_G pi_B : F)
        (p_L_grid b_grid h_grid k_L_grid k_H_grid pi_G_grid pi_B_grid : list F) (K : nat) :
  find_unregulated_optimum (G := G)
    (Params.mk N p_L theta b h k_L k_H pi_G pi_B z_mean z_std 0%Z) [] = (None, None) /\
  explore (G := G) N theta z_mean z_std []
          (p_L :: p_L_grid) (b :: b_grid) (h :: h_grid) (k_L :: k_L_grid)
          (k_H :: k_H_grid) (pi_G :: pi_G_grid) (pi_B :: pi_B_grid) K = Raise TypeError.
Proof.
split; [reflexivity|]. unfold explore.
rewrite enumerate_empty_t_grid; reflexivity.
Qed.

(** If one of the seven parameter grids is empty, no combination is visited
    and the explorer outputs the empty list, whatever the other arguments. *)
Theorem explore_no_combination (N : nat) (theta z_mean z_std : F) (t_grid : list F)
        (p_L_grid b_grid h_grid k_L_grid k_H_grid pi_G_grid pi_B_grid : list F) (K : nat) :
  In [] [p_L_grid; b_grid; h_grid; k_L_grid; k_H_grid; pi_G_grid; pi_B_grid] ->
  explore (G := G) N theta z_mean z_std t_grid
          p_L_grid b_grid h_grid k_L_grid k_H_grid pi_G_grid pi_B_grid K = Ok [].
Proof.
intros E.
destruct (enumerate_all_ok (G := G) N theta z_mean z_std t_grid
            p_L_grid b_grid h_grid k_L_grid k_H_grid pi_G_grid pi_B_grid)
  as (results & Er & Em).
{ intros p_L b h k_L k_H pi_G pi_B I1 I2 I3 I4 I5 I6 I7. exfalso.
  cbn in E. repeat (destruct E as [E|E]; [subst; contradiction|]). exact E. }
assert (L : length results = 0).
{ rewrite <- (length_map regime_params), Em, combinations_length.
  cbn in E. repeat (destruct E as [E|E]; [subst; cbn; lia|]). contradiction. }
destruct results; [|discriminate L].
unfold explore. rewrite Er. cbn. destruct K; reflexivity.
Qed.
End EnumerationRaises.

Lemma explore_no_combination_witness :
  explore (G := Z) 5 0%Q 0%Q 1%Q [0%Q; 1%Q]
          [(1 # 2)%Q] [1%Q] [] [(1 # 10)%Q] [(3 # 10)%Q] [(1 # 5)%Q] [(- (1 # 5))%Q] 15
  = Ok [].
Proof.
apply explore_no_combination. cbn. tauto.
Defined.

Section ExplorerCardinality.
Local Open Scope Q_scope.
Context {G : Type} `{Generator Q G}.
Variable N : nat.
Variables theta z_mean z_std : Q.
Variable t_grid : list Q.
Variables p_L_grid b_grid h_grid k_L_grid k_H_grid pi_G_grid pi_B_grid : list Q.

Lemma enumerate_exact :
  N <> 0%nat -> t_grid <> [] ->
  exists results,
    enumerate (G := G) N theta z_mean z_std t_grid
              p_L_grid b_grid h_grid k_L_grid k_H_grid pi_G_grid pi_B_grid = Ok results /\
    map regime_params results =
      combinations p_L_grid b_grid h_grid k_L_grid k_H_grid pi_G_grid pi_B_grid.
Proof.
intros HN NE. apply enumerate_all_ok. intros. apply regime_of_ok; assumption.
Qed.

(** With a positive population size and a non-empty threshold grid the
    enumeration never raises: it yields exactly one regime per parameter
    combination, in the order of the seven nested loops, so their number is
    the product of the seven grid lengths. *)
Theorem enumerate_combinations :
  N <> 0%nat -> t_grid <> [] ->
  exists results,
    enumerate (G := G) N theta z_mean z_std t_grid
              p_L_grid b_grid h_grid k_L_grid k_H_grid pi_G_grid pi_B_grid = Ok results /\
    map regime_params results =
      combinations p_L_grid b_grid h_grid k_L_grid k_H_grid pi_G_grid pi_B_grid /\
    length results =
      (length p_L_grid * (length b_grid * (length h_grid * (length k_L_grid *
       (length k_H_grid * (length pi_G_grid * length pi_B_grid))))))%nat.
Proof.
intros HN NE. destruct (enumerate_exact HN NE) as (results & E & Em).
exists results. split; [exact E|]. split; [exact Em|].
rewrite <- (length_map regime_params), Em. apply combinations_length.
Qed.

(** The explorer then outputs [min(K, number of combinations)] regimes. *)
Theorem explore_output_length (K : nat) :
  N <> 0%nat -> t_grid <> [] ->
  exists out,
    explore (G := G) N theta z_mean z_std t_grid
            p_L_grid b_grid h_grid k_L_grid k_H_grid pi_G_grid pi_B_grid K = Ok out /\
    length out =
      Nat.min K
        (length p_L_grid * (length b_grid * (length h_grid * (length k_L_grid *
         (length k_H_grid * (length pi_G_grid * length pi_B_grid))))))%nat.
Proof.
intros HN NE. destruct (enumerate_exact HN NE) as (results & E & Em).
unfold explore. rewrite E. cbn [bind]. eexists. split; [reflexivity|].
rewrite length_firstn, (Permutation_length (sorted_perm _ results true)).
rewrite <- (length_map regime_params results), Em, combinations_length. reflexivity.
Qed.

(** With no borrower at all ([N = 0]), a non-empty threshold grid and no
    parameter grid empty, the explorer raises [ZeroDivisionError] at its
    first combination: an optimum is found, and [H / N] divides by zero. *)
Theorem explore_zero_population (p_L b h k_L k_H pi_G pi_B : Q) (K : nat) :
  N = 0%nat -> t_grid <> [] ->
  explore (G := G) N theta z_mean z_std t_grid
          (p_L :: p_L_grid) (b :: b_grid) (h :: h_grid) (k_L :: k_L_grid)
          (k_H :: k_H_grid) (pi_G :: pi_G_grid) (pi_B :: pi_B_grid) K
  = Raise ZeroDivisionError.
Proof.
intros HN NE.
assert (E : enumerate (G := G) N theta z_mean z_std t_grid
              (p_L :: p_L_grid) (b :: b_grid) (h :: h_grid) (k_L :: k_L_grid)
              (k_H :: k_H_grid) (pi_G :: pi_G_grid) (pi_B :: pi_B_grid)
            = Raise ZeroDivisionError).
{ unfold enumerate. do 7 (apply for_each_raises).
  unfold regime_of, find_unregulated_optimum.
  match goal with |- context [scan ?e ?l t_grid] =>
    destruct (scan_nonempty e l NE) as [bst E]; rewrite E
  end.
  rewrite HN. reflexivity. }
unfold explore. rewrite E. reflexivity.
Qed.
End ExplorerCardinality.

Lemma enumerate_combinations_witness :
  exists results,
    enumerate (G := Z) 5 0%Q 0%Q 1%Q [(-1 # 1)%Q; 0%Q; 1%Q]
              [(1 # 2)%Q] [1%Q] [(1 # 2)%Q; (1 # 10)%Q] [(1 # 10)%Q] [(3 # 10)%Q]
              [(1 # 5)%Q] [(- (1 # 5))%Q; (- (3 # 5))%Q] = Ok results /\
    length results = 4.
Proof.
destruct (enumerate_combinations (G := Z) (N := 5) 0%Q 0%Q 1%Q
            (t_grid := [(-1 # 1)%Q; 0%Q; 1%Q])
            [(1 # 2)%Q] [1%Q] [(1 # 2)%Q; (1 # 10)%Q] [(1 # 10)%Q] [(3 # 10)%Q]
            [(1 # 5)%Q] [(- (1 # 5))%Q; (- (3 # 5))%Q])
  as (results & E & _ & L); [discriminate|discriminate|].
exists results. split; [exact E|exact L].
Defined.

Lemma explore_output_length_witness :
  exists out,
    explore (G := Z) 5 0%Q 0%Q 1%Q [(-1 # 1)%Q; 0%Q; 1%Q]
            [(1 # 2)%Q] [1%Q] [(1 # 2)%Q; (1 # 10)%Q] [(1 # 10)%Q] [(3 # 10)%Q]
            [(1 # 5)%Q] [(- (1 # 5))%Q; (- (3 # 5))%Q] 3 = Ok out /\
    length out = 3.
Proof.
destruct (explore_output_length (G := Z) (N := 5) 0%Q 0%Q 1%Q
            (t_grid := [(-1 # 1)%Q; 0%Q; 1%Q])
            [(1 # 2)%Q] [1%Q] [(1 # 2)%Q; (1 # 10)%Q] [(1 # 10)%Q] [(3 # 10)%Q]
            [(1 # 5)%Q] [(- (1 # 5))%Q; (- (3 # 5))%Q] 3)
  as (out & E & L); [discriminate|discriminate|].
exists out. split; [exact E|exact L].
Defined.

Lemma explore_zero_population_witness :
  explore (G := Z) 0 0%Q 0%Q 1%Q [0%Q; 1%Q]
          [(1 # 2)%Q] [1%Q] [(1 # 2)%Q] [(1 # 10)%Q] [(3 # 10)%Q]
          [(1 # 5)%Q] [(- (1 # 5))%Q] 15 = Raise ZeroDivisionError.
Proof.
apply explore_zero_population; [reflexivity|discriminate].
Defined.

(** ** The harm fraction of a regime *)

(** Whatever a loop of appending bodies returns is the accumulator followed
    by elements the body vouches for. *)
Lemma for_each_members (A B : Type) (P : B -> Prop)
      (body : list B -> A -> result (list B)) :
  (forall acc x acc', body acc x = Ok acc' -> exists l, acc' = acc ++ l /\ Forall P l) ->
  forall xs acc out,
    for_each body xs acc = Ok out -> exists l, out = acc ++ l /\ Forall P l.
Proof.
intros Hb xs. induction xs as [|x xs IH]; intros acc out E; cbn [for_each] in E.
- injection E as <-. exists []. rewrite app_nil_r. split; [reflexivity|constructor].
- destruct (body acc x) as [acc'|e] eqn:Eb; [|discriminate E]. cbn [bind] in E.
  destruct (Hb _ _ _ Eb) as (l & -> & Hl).
  destruct (IH _ _ E) as (l' & -> & Hl').
  exists (l ++ l'). rewrite app_assoc. split; [reflexivity|].
  apply Forall_app. split; assumption.
Qed.

Section RegimeMembers.
Context {F G : Type} `{Scalar F} `{Generator F G}.

(** Every regime of a successful enumeration is what [regime_of] computed
    for some parameter combination. *)
Lemma enumerate_members (N : nat) (theta z_mean z_std : F) (t_grid : list F)
      (p_L_grid b_grid h_grid k_L_grid k_H_grid pi_G_grid pi_B_grid : list F)
      (results : list (Regime.t F)) :
  enumerate (G := G) N theta z_mean z_std t_grid
            p_L_grid b_grid h_grid k_L_grid k_H_grid pi_G_grid pi_B_grid = Ok results ->
  Forall (fun r => exists p_L b h k_L k_H pi_G pi_B,
            regime_of (G := G) N theta z_mean z_std t_grid
                      p_L b h k_L k_H pi_G pi_B = Ok r) results.
Proof.
unfold enumerate. intros E.
apply for_each_members with (P := fun r => exists p_L b h k_L k_H pi_G pi_B,
   regime_of (G := G) N theta z_mean z_std t_grid p_L b h k_L k_H pi_G pi_B = Ok r) in E.
- destruct E as (l & -> & Hl). exact Hl.
- do 6 (intros ? ? ?; apply for_each_members).
  intros results0 pi_B results1 Eb.
  destruct (regime_of _ _ _ _ _ _ _ _ _ _ _ _) as [r|e] eqn:Er; [|discriminate Eb].
  cbn [bind] in Eb. injection Eb as <-.
  exists [r]. split; [reflexivity|]. repeat constructor. eauto 10.
Qed.

Lemma make_env_size (params : Params.t F) :
  draws_as_asked F G ->
  length (borrowers (make_env (G := G) params)) = Params.N params.
Proof.
intros D. unfold make_env, init.
match goal with |- context [reset_population ?e None] =>
  exact (population_size e None D)
end.
Qed.
End RegimeMembers.

Section HarmFraction.
Local Open Scope Q_scope.
Context {G : Type} `{Generator Q G}.

Lemma regime_of_harm (N : nat) (theta z_mean z_std : Q) (t_grid : list Q)
      (p_L b h k_L k_H pi_G pi_B : Q) (r : Regime.t Q) :
  draws_as_asked Q G ->
  regime_of (G := G) N theta z_mean z_std t_grid p_L b h k_L k_H pi_G pi_B = Ok r ->
  (Regime.H r <= N)%nat /\
  Regime.H_frac r = inject_Z (Z.of_nat (Regime.H r)) / inject_Z (Z.of_nat N) /\
  0 <= Regime.H_frac r <= 1.
Proof.
intros D. unfold regime_of, find_unregulated_optimum.
match goal with |- context [scan (make_env ?p) ?l t_grid] =>
  pose proof (scan_retained (make_env (G := G) p) l t_grid) as R;
  pose proof (counters_after_loop (make_env (G := G) p)) as Cn;
  assert (Len : length (borrowers (make_env (G := G) p)) = N)
    by (exact (make_env_size p D));
  destruct (scan (make_env p) l t_grid) as [bst|]; [|discriminate]
end.
destruct (N =? 0)%nat eqn:HN; [discriminate|].
intros E. injection E as <-. cbn [Regime.H Regime.H_frac].
destruct R as (_ & _ & Es). rewrite Es.
unfold evaluate_threshold. cbn [snd Stats.H].
specialize (Cn (Best.best_t bst)). cbv zeta in Cn.
destruct Cn as (_ & _ & _ & _ & Hb). rewrite Len in Hb.
fold (evaluate_loop (make_env (G := G)
        (Params.mk N p_L theta b h k_L k_H pi_G pi_B z_mean z_std 0%Z)) (Best.best_t bst)).
set (Hn := Locals.H _) in *.
assert (L : (Hn <= N)%nat) by lia.
split; [exact L|]. split; [reflexivity|].
pose proof (rate_in_unit_interval L) as I.
apply Nat.eqb_neq in HN.
assert (P : (0 <? N)%nat = true) by (apply Nat.ltb_lt; lia).
rewrite P in I. exact I.
Qed.

(** With a generator that returns as many samples as asked for, every regime
    the explorer enumerates has at most [N] harmed borrowers, and its harm
    fraction is [H / N], a number between 0 and 1. *)
Theorem harm_fraction_in_unit_interval (N : nat) (theta z_mean z_std : Q) (t_grid : list Q)
        (p_L_grid b_grid h_grid k_L_grid k_H_grid pi_G_grid pi_B_grid : list Q)
        (results : list (Regime.t Q)) :
  draws_as_asked Q G ->
  enumerate (G := G) N theta z_mean z_std t_grid
            p_L_grid b_grid h_grid k_L_grid k_H_grid pi_G_grid pi_B_grid = Ok results ->
  Forall (fun r =>
            (Regime.H r <= N)%nat /\
            Regime.H_frac r = inject_Z (Z.of_nat (Regime.H r)) / inject_Z (Z.of_nat N) /\
            0 <= Regime.H_frac r <= 1) results.
Proof.
intros D E. apply enumerate_members in E.
eapply Forall_impl; [|exact E].
intros r (p_L & b & h & k_L & k_H & pi_G & pi_B & Er).
eapply regime_of_harm; eassumption.
Qed.
End HarmFraction.

Lemma harm_fraction_in_unit_interval_witness :
  exists results,
    enumerate (G := Z) 5 0%Q 0%Q 1%Q [(-1 # 1)%Q; 0%Q; 1%Q]
              [(1 # 2)%Q] [1%Q] [(1 # 2)%Q; (1 # 10)%Q] [(1 # 10)%Q] [(3 # 10)%Q]
              [(1 # 5)%Q] [(- (1 # 5))%Q; (- (3 # 5))%Q] = Ok results /\
    Forall (fun r => (0 <= Regime.H_frac r <= 1)%Q) results.
Proof.
eexists. split; [vm_compute; reflexivity|].
match goal with |- Forall _ ?res =>
  assert (E : enumerate (G := Z) 5 0%Q 0%Q 1%Q [(-1 # 1)%Q; 0%Q; 1%Q]
                [(1 # 2)%Q] [1%Q] [(1 # 2)%Q; (1 # 10)%Q] [(1 # 10)%Q] [(3 # 10)%Q]
                [(1 # 5)%Q] [(- (1 # 5))%Q; (- (3 # 5))%Q] = Ok res)
    by (vm_compute; reflexivity)
end.
pose proof (@toy_draws_as_asked Q _) as D.
eapply Forall_impl; [|exact (harm_fraction_in_unit_interval _ _ _ _ _ _ _ _ _ _ _ _ D E)].
intros r (_ & _ & I). exact I.
Defined.

(** ** Raising the threshold *)

(** In binary64 the borrower at [z = -3.0] is denied at [t = -0.7] whatever
    its [k], [b] and [h]: unadjusted it reports [-3.0], adjusted it reports
    [-0.7000000000000002], and both are below [-0.7].  The square in
    [best_response] plays no part. *)
Lemma threshold_missed_by_rounding (k b h : float) (low_cost : bool) :
  accepted (rounding_borrower k b h low_cost) (-0.7)%float = false.
Proof.
unfold accepted, reported_score, best_response, rounding_borrower, is_good.
vm_compute.
repeat match goal with
       | |- context [match ?c with true => _ | false => _ end] => destruct c
       end; reflexivity.
Qed.

Section ThresholdMonotonicity.
Local Open Scope Q_scope.

Lemma accepted_lower_threshold (bw : Borrower Q) (t1 t2 : Q) :
  0 <= k bw -> t1 <= t2 -> accepted bw t2 = true -> accepted bw t1 = true.
Proof.
intros Hk L A. apply accepted_closed_form in A. apply accepted_closed_form.
destruct (Qlt_le_dec (z bw) t1) as [L1|L1]; [|left; exact L1].
right. split; [exact L1|].
destruct A as [A|[_ U]]; [exfalso; lra|].
assert (S : (t1 - z bw) ^ 2 <= (t2 - z bw) ^ 2) by (simpl; nra).
assert (k bw * (t1 - z bw) ^ 2 <= k bw * (t2 - z bw) ^ 2) by nra.
lra.
Qed.

(** In exact arithmetic, for any borrower with a non-negative cost
    coefficient, acceptance is downward closed in the threshold: accepted at
    [t2], it is accepted at every [t1 <= t2], whether it adjusts or not.
    The doubles the program runs on do not keep this: the borrower at
    [z = -3.0] with [k = 0.1], [b = 1] is accepted at [t = 0.0] (it adjusts
    by [3.0]) and denied at the lower threshold [t = -0.7], as it would be
    for any [k], [b], [h]. *)
Theorem acceptance_downward_closed :
  (forall (bw : Borrower Q) (t1 t2 : Q),
     0 <= k bw -> t1 <= t2 -> accepted bw t2 = true -> accepted bw t1 = true) /\
  (forall (k b h : float) (low_cost : bool),
     accepted (rounding_borrower k b h low_cost) (-0.7)%float = false) /\
  accepted (rounding_borrower 0.1%float 1%float 0.5%float true) 0%float = true /\
  PrimFloat.leb (-0.7)%float 0%float = true.
Proof.
split; [exact accepted_lower_threshold|].
split; [exact threshold_missed_by_rounding|].
split; vm_compute; reflexivity.
Qed.

Lemma acceptance_downward_closed_witness :
  let bw := mkBorrower (-1) (1 # 10) 0 1 (1 # 2) true in
  accepted bw 1 = true /\ accepted bw (1 # 2) = true.
Proof.
intros bw.
assert (A : accepted bw 1 = true) by reflexivity.
assert (Hk : 0 <= k bw) by (cbn; lra).
assert (L : 1 # 2 <= 1) by lra.
split; [exact A|].
exact (proj1 acceptance_downward_closed bw (1 # 2) 1 Hk L A).
Defined.

Lemma filter_length_le (A : Type) (p q : A -> bool) (l : list A) :
  (forall x, In x l -> p x = true -> q x = true) ->
  (length (filter p l) <= length (filter q l))%nat.
Proof.
induction l as [|x l IH]; intros Hpq; [reflexivity|]. cbn [filter].
assert (IH' : (length (filter p l) <= length (filter q l))%nat)
  by (apply IH; intros y I; apply Hpq; right; exact I).
destruct (p x) eqn:Px.
- rewrite (Hpq x (or_introl eq_refl) Px). cbn. lia.
- destruct (q x); cbn; lia.
Qed.

Lemma harm_monotone_exact (G : Type) (self : StrategicLendingEnv Q G)
      (t1 t2 lam : Q) :
  Forall (fun bw => 0 <= k bw) (borrowers self) ->
  t1 <= t2 ->
  (Stats.H (snd (evaluate_threshold self t1 lam)) <=
   Stats.H (snd (evaluate_threshold self t2 lam)))%nat.
Proof.
intros Hk L. unfold evaluate_threshold, evaluate_loop. cbn [snd Stats.H].
rewrite !loop_H_spec. cbn [evaluate_init Locals.H Nat.add].
apply filter_length_le. intros bw I Hp.
rewrite Forall_forall in Hk. specialize (Hk bw I).
apply andb_true_iff in Hp as [Hg Hd]. rewrite Hg. cbn [andb].
rewrite <- accepted_spec in *.
destruct (accepted bw t2) eqn:A; [|reflexivity].
rewrite (accepted_lower_threshold bw Hk L A) in Hd. discriminate Hd.
Qed.

(** In exact arithmetic, when no borrower has a negative cost coefficient,
    raising the threshold never lowers the harm count [H] that
    [evaluate_threshold] reports.  The doubles the program runs on do not
    keep this: on the population of the one good borrower at [z = -3.0]
    ([k = 0.1], [b = 1]) the harm count is [1] at [t = -0.7] and [0] at the
    higher threshold [t = 0.0]. *)
Theorem harm_monotone_in_threshold :
  (forall (G : Type) (self : StrategicLendingEnv Q G) (t1 t2 lam : Q),
     Forall (fun bw => 0 <= k bw) (borrowers self) ->
     t1 <= t2 ->
     (Stats.H (snd (evaluate_threshold self t1 lam)) <=
      Stats.H (snd (evaluate_threshold self t2 lam)))%nat) /\
  (let self := env_of 0.2%float (-0.2)%float
                      [rounding_borrower 0.1%float 1%float 0.5%float true] in
   Stats.H (snd (evaluate_threshold self (-0.7)%float 0%float)) = 1%nat /\
   Stats.H (snd (evaluate_threshold self 0%float 0%float)) = 0%nat).
Proof.
split; [exact harm_monotone_exact|].
cbv zeta. split; vm_compute; reflexivity.
Qed.

Lemma harm_monotone_in_threshold_witness :
  Forall (fun bw => 0 <= k bw) (borrowers tradeoff_env) /\
  Stats.H (snd (evaluate_threshold tradeoff_env 0 0)) = 0%nat /\
  Stats.H (snd (evaluate_threshold tradeoff_env 1 0)) = 1%nat /\
  (Stats.H (snd (evaluate_threshold tradeoff_env 0%Q 0%Q)) <=
   Stats.H (snd (evaluate_threshold tradeoff_env 1%Q 0%Q)))%nat.
Proof.
assert (Hk : Forall (fun bw => 0 <= k bw) (borrowers tradeoff_env)).
{ repeat constructor; cbn; discriminate. }
assert (L : 0 <= 1) by lra.
split; [exact Hk|]. split; [reflexivity|]. split; [reflexivity|].
exact (proj1 harm_monotone_in_threshold Z tradeoff_env 0 1 0 Hk L).
Defined.
End ThresholdMonotonicity.

(** In binary64 the order of the population does matter: with
    [pi_G = 1.0] and [pi_B = -1e16], two good borrowers before a bad one sum
    to [-9999999999999998.0], the bad one first to [-1e16]. *)
Example binary64_order_matters :
  let g1 := mkBorrower 1%float 0.1%float 0%float 1%float 0.5%float true in
  let g2 := mkBorrower 2%float 0.1%float 0%float 1%float 0.5%float true in
  let bd := mkBorrower (-0.5)%float 0.1%float 0%float 1%float 0.5%float true in
  let t := (-1)%float in
  Stats.Pi (snd (evaluate_threshold (env_of 1%float (-1e16)%float [g1; g2; bd]) t 0%float))
    = (-9999999999999998)%float /\
  Stats.Pi (snd (evaluate_threshold (env_of 1%float (-1e16)%float [bd; g1; g2]) t 0%float))
    = (-1e16)%float.
Proof. cbv zeta. split; vm_compute; reflexivity. Qed.
